(** * Cube-parkour: the multiplayer room synchronizer

    A shallow embedding of [MultiplayerManager] (game/multiplayer.ts): the
    peer registry, the message deduplicator, the two inbound transport
    handlers, the liveness driver and the teardown path.

    Modelling conventions.
    - The class instance is a record; every method and every timer or
      listener body is a function from the instance (and the values it
      reads from the environment: [Date.now()], [Math.random()], the
      keys of [localStorage]) to the new instance and the list of
      effects the body performs, in program order.
    - [remotePlayers] is a JavaScript [Map]: keys are unique and
      iteration follows insertion order. It is an association list,
      [Map.set] keeps the position of a key already present.
    - [seenMessageIds] is a JavaScript [Set], again insertion ordered:
      a list without duplicates; [slice(-100)] depends on that order.
    - The optional hooks ([onStatusChange?.(..)] and the like) are
      recorded as effects at the call site; a hook that is not installed
      simply receives nothing. Hooks are taken not to call back into the
      manager.
    - Timestamps are integer milliseconds ([Z]); the kinematic numbers of
      a player state and the level index travel through the manager
      untouched and are kept abstract ([number]). *)

From Stdlib Require Import ZArith String List Lia.
From stdpp Require Import base numbers strings list pretty.
Import ListNotations.

Local Open Scope string_scope.
Local Open Scope list_scope.

(** ** JavaScript collections *)

(** [Map<string, V>] in insertion order. *)
Abbreviation JsMap V := (list (string * V)) (only parsing).

Section Collections.
Context {V : Type}.

Fixpoint Map_get (k : string) (m : JsMap V) : option V :=
  match m with
  | [] => None
  | (k', v) :: rest => if decide (k = k') then Some v else Map_get k rest
  end.

Definition Map_has (k : string) (m : JsMap V) : bool :=
  match Map_get k m with Some _ => true | None => false end.

Fixpoint Map_set (k : string) (v : V) (m : JsMap V) : JsMap V :=
  match m with
  | [] => [(k, v)]
  | (k', v') :: rest =>
      if decide (k = k') then (k, v) :: rest else (k', v') :: Map_set k v rest
  end.

Fixpoint Map_delete (k : string) (m : JsMap V) : JsMap V :=
  match m with
  | [] => []
  | (k', v') :: rest =>
      if decide (k = k') then rest else (k', v') :: Map_delete k rest
  end.

Definition Map_size (m : JsMap V) : nat := length m.
Definition Map_keys (m : JsMap V) : list string := fst <$> m.
Definition Map_values (m : JsMap V) : list V := snd <$> m.
End Collections.

(** [Set<string>] in insertion order. *)
Definition Set_has (x : string) (s : list string) : bool := bool_decide (x ∈ s).

Definition Set_add (x : string) (s : list string) : list string :=
  if Set_has x s then s else s ++ [x].

(** [arr.slice(-n)]: the last [n] elements, all of them when there are
    fewer. *)
Definition slice_last {A} (n : nat) (arr : list A) : list A :=
  drop (length arr - n) arr.

(** A string used as a condition: the empty string is falsy. *)
Definition truthy (s : string) : bool := bool_decide (s ≠ EmptyString).

Definition truthy_opt (o : option string) : bool :=
  match o with Some s => truthy s | None => false end.

(** ** Data model *)

Record RemotePlayerInfo := {
  info_id : string;
  info_name : string;
  info_color : string;
  info_lastSeen : Z;
}.

Section Manager.
(** JavaScript numbers that the manager only forwards. *)
Context {number : Type}.

Record PlayerState := {
  ps_x : number;
  ps_y : number;
  ps_vx : number;
  ps_vy : number;
  ps_width : number;
  ps_height : number;
  ps_onGround : bool;
  ps_color : string;
  ps_name : string;
  ps_isDead : bool;
  ps_hasWon : bool;
  ps_deaths : number;
}.

Inductive MultiplayerMessage :=
| PlayerUpdate (player : PlayerState) (peer : string)
| LevelChange (level : number) (peer : string)
| PlayerJoin (peer : string) (name color : string)
| PlayerLeft (peer : string)
| StartGame (level : number) (peer : string)
| Heartbeat (peer : string) (name color : string).

(** The [peerId] field every variant carries. *)
Definition msg_peerId (m : MultiplayerMessage) : string :=
  match m with
  | PlayerUpdate _ p | LevelChange _ p | PlayerJoin p _ _
  | PlayerLeft p | StartGame _ p | Heartbeat p _ _ => p
  end.

(** [MultiplayerMessage & { _msgId?: string }]. *)
Record WireMessage := {
  wire_msg : MultiplayerMessage;
  wire_msgId : option string;
}.

(** The record written to [localStorage]: [{ from, data }]. *)
Record Wrapper := {
  wrapper_from : string;
  wrapper_data : WireMessage;
}.

(** The two fields of a [StorageEvent] the listener reads. *)
Record StorageEvent := {
  ev_key : option string;
  ev_newValue : option string;
}.

Inductive Channel := ChannelOpen | ChannelClosed.

Inductive Task :=
| ReadyTask
| HeartbeatTask
| CleanupTask
| AnnounceJoinTask
| RemoveItemTask (key : string).

Inductive Timer := HeartbeatInterval | CleanupInterval.

(** What a method body does to the outside, in program order. *)
Inductive Effect :=
| OnStatusChange (status : string)
| OnConnectionChange (count : nat)
| OnPlayerListChange (players : list RemotePlayerInfo)
| OnMessage (msg : MultiplayerMessage)
| OnGameStart (level : number)
| SetTimeout (task : Task) (delay : Z)
| SetInterval (task : Task) (period : Z)
| ClearInterval (t : Timer)
| PostMessage (data : WireMessage)
| SetItem (key : string) (value : Wrapper)
| RemoveItem (key : string)
| CloseChannel
| RemoveStorageListener.

Record MultiplayerManager := {
  peerId : string;
  roomId : string;
  isHost : bool;
  playerName : string;
  playerColor : string;
  remotePlayers : JsMap RemotePlayerInfo;
  bcChannel : option Channel;
  storageHandler : bool;
  destroyed : bool;
  seenMessageIds : list string;
}.

Definition with_remotePlayers (r : JsMap RemotePlayerInfo) (st : MultiplayerManager) :=
  {| peerId := peerId st; roomId := roomId st; isHost := isHost st;
     playerName := playerName st; playerColor := playerColor st;
     remotePlayers := r;
     bcChannel := bcChannel st; storageHandler := storageHandler st;
     destroyed := destroyed st; seenMessageIds := seenMessageIds st |}.

Definition with_seenMessageIds (s : list string) (st : MultiplayerManager) :=
  {| peerId := peerId st; roomId := roomId st; isHost := isHost st;
     playerName := playerName st; playerColor := playerColor st;
     remotePlayers := remotePlayers st;
     bcChannel := bcChannel st; storageHandler := storageHandler st;
     destroyed := destroyed st; seenMessageIds := s |}.

Definition with_destroyed (d : bool) (st : MultiplayerManager) :=
  {| peerId := peerId st; roomId := roomId st; isHost := isHost st;
     playerName := playerName st; playerColor := playerColor st;
     remotePlayers := remotePlayers st;
     bcChannel := bcChannel st; storageHandler := storageHandler st;
     destroyed := d; seenMessageIds := seenMessageIds st |}.

Definition with_bcChannel (c : option Channel) (st : MultiplayerManager) :=
  {| peerId := peerId st; roomId := roomId st; isHost := isHost st;
     playerName := playerName st; playerColor := playerColor st;
     remotePlayers := remotePlayers st;
     bcChannel := c; storageHandler := storageHandler st;
     destroyed := destroyed st; seenMessageIds := seenMessageIds st |}.

(** What a body reads from its surroundings: [Date.now()], the two
    [Math.random().toString(36).slice(2, 6)] draws of [broadcast], and
    [localStorage] ([None] when touching it throws, otherwise its
    keys). *)
Record Env := {
  date_now : Z;
  random_id : string;
  random_key : string;
  localStorage : option (list string);
}.

(** ** Status texts *)

Definition status_ready : string := "🟢 Salle prête ! En attente de joueurs...".
Definition status_joined (name : string) : string :=
  "🟢 " +:+ name +:+ " a rejoint la salle !".
Definition status_timed_out (name : string) : string :=
  "🔴 " +:+ name +:+ " s'est déconnecté".
Definition status_left (name : string) : string :=
  "🔴 " +:+ name +:+ " a quitté".

(** ** Accessors *)

Definition getConnectedCount (st : MultiplayerManager) : nat :=
  Map_size (remotePlayers st).

Definition getPlayerList (st : MultiplayerManager) : list RemotePlayerInfo :=
  Map_values (remotePlayers st).

Definition notifyConnectionChange (st : MultiplayerManager) : list Effect :=
  let count := Map_size (remotePlayers st) in
  [OnConnectionChange count; OnPlayerListChange (Map_values (remotePlayers st))].

(** ** Inbound dispatch *)

Definition mkInfo (id name color : string) (now : Z) : RemotePlayerInfo :=
  {| info_id := id; info_name := name; info_color := color; info_lastSeen := now |}.

Definition touch (now : Z) (p : RemotePlayerInfo) : RemotePlayerInfo :=
  {| info_id := info_id p; info_name := info_name p;
     info_color := info_color p; info_lastSeen := now |}.

(** The shared body of the [heartbeat] and [playerJoin] cases. *)
Definition handlePresence (now : Z) (isJoin : bool) (peer name color : string)
    (st : MultiplayerManager) : MultiplayerManager * list Effect :=
  let wasKnown := Map_has peer (remotePlayers st) in
  let st' := with_remotePlayers
               (Map_set peer (mkInfo peer name color now) (remotePlayers st)) st in
  if wasKnown then (st', [])
  else (st', [OnStatusChange (status_joined name)]
             ++ notifyConnectionChange st'
             ++ (if isJoin then [SetTimeout AnnounceJoinTask 50] else [])).

(** [existing.lastSeen = Date.now()] in the [playerUpdate] case writes
    into the entry the map holds: the key keeps its position, name and
    color stay. (Player lists handed to [onPlayerListChange] earlier
    share that object; nothing below depends on it.) *)
Definition handleIncomingMessage (now : Z) (msg : MultiplayerMessage)
    (st : MultiplayerManager) : MultiplayerManager * list Effect :=
  if decide (msg_peerId msg = peerId st) then (st, [])
  else
    match msg with
    | Heartbeat peer name color => handlePresence now false peer name color st
    | PlayerJoin peer name color => handlePresence now true peer name color st
    | PlayerUpdate player peer =>
        match Map_get peer (remotePlayers st) with
        | Some existing =>
            (with_remotePlayers
               (Map_set peer (touch now existing) (remotePlayers st)) st,
             [OnMessage msg])
        | None =>
            let st' := with_remotePlayers
                         (Map_set peer
                            (mkInfo peer (ps_name player) (ps_color player) now)
                            (remotePlayers st)) st in
            (st', notifyConnectionChange st' ++ [OnMessage msg])
        end
    | StartGame level _ => (st, [OnGameStart level])
    | PlayerLeft peer =>
        let st' := with_remotePlayers (Map_delete peer (remotePlayers st)) st in
        (st',
         (match Map_get peer (remotePlayers st) with
          | Some leaving => [OnStatusChange (status_left (info_name leaving))]
          | None => []
          end) ++ notifyConnectionChange st' ++ [OnMessage msg])
    | LevelChange _ _ => (st, [OnMessage msg])
    end.

(** ** Message deduplicator

    The block that both transport handlers run on a delivered message
    before dispatching it: [None] when the message is a duplicate and
    is dropped, otherwise the instance with the id remembered. A
    message without an id (or with an empty one) is never a
    duplicate and leaves the set alone. *)
Definition deduplicate (data : WireMessage) (st : MultiplayerManager)
    : option MultiplayerManager :=
  match wire_msgId data with
  | Some msgId =>
      if truthy msgId then
        if Set_has msgId (seenMessageIds st) then None
        else
          let seen := Set_add msgId (seenMessageIds st) in
          Some (with_seenMessageIds
                  (if bool_decide (200 < length seen)
                   then slice_last 100 seen else seen) st)
      else Some st
  | None => Some st
  end.

(** ** BroadcastChannel transport: [bcChannel.onmessage] *)
Definition bcChannel_onmessage (now : Z) (data : WireMessage)
    (st : MultiplayerManager) : MultiplayerManager * list Effect :=
  if destroyed st then (st, [])
  else
    match deduplicate data st with
    | None => (st, [])
    | Some st' => handleIncomingMessage now (wire_msg data) st'
    end.

(** ** localStorage transport: the [storage] listener

    [JSON.parse] followed by the reads of [wrapper.from] and
    [wrapper.data]; [None] stands for every text on which one of them
    throws, which the surrounding [try] swallows. *)
Variable JSON_parse : string -> option Wrapper.

Definition room_prefix (st : MultiplayerManager) : string :=
  "cr-" +:+ roomId st +:+ "-".

Definition storageHandler_call (now : Z) (e : StorageEvent)
    (st : MultiplayerManager) : MultiplayerManager * list Effect :=
  if destroyed st then (st, [])
  else
    match ev_key e with
    | None => (st, [])
    | Some key =>
        if negb (truthy key) || negb (String.prefix (room_prefix st) key)
        then (st, [])
        else
          match ev_newValue e with
          | None => (st, [])
          | Some newValue =>
              if negb (truthy newValue) then (st, [])
              else
                match JSON_parse newValue with
                | None => (st, [])
                | Some wrapper =>
                    if decide (wrapper_from wrapper = peerId st) then (st, [])
                    else
                      match deduplicate (wrapper_data wrapper) st with
                      | None => (st, [])
                      | Some st' =>
                          handleIncomingMessage now
                            (wire_msg (wrapper_data wrapper)) st'
                      end
                end
          end
    end.

(** ** Liveness driver: the body of [cleanupInterval]

    [forEach] over the registry; the callback only ever deletes the
    entry it is visiting, so the entries visited are the ones present
    when the pass starts, in insertion order. *)
Definition stale (now : Z) (player : RemotePlayerInfo) : bool :=
  bool_decide (now - info_lastSeen player > 3000)%Z.

Fixpoint cleanup_forEach (now : Z) (entries : JsMap RemotePlayerInfo)
    (reg : JsMap RemotePlayerInfo) (changed : bool)
    : JsMap RemotePlayerInfo * list Effect * bool :=
  match entries with
  | [] => (reg, [], changed)
  | (id, player) :: rest =>
      if stale now player then
        let '(reg', effs, changed') :=
          cleanup_forEach now rest (Map_delete id reg) true in
        (reg',
         OnStatusChange (status_timed_out (info_name player))
           :: OnMessage (PlayerLeft id) :: effs,
         changed')
      else cleanup_forEach now rest reg changed
  end.

Definition cleanupInterval_tick (now : Z) (st : MultiplayerManager)
    : MultiplayerManager * list Effect :=
  if destroyed st then (st, [])
  else
    let '(reg, effs, changed) :=
      cleanup_forEach now (remotePlayers st) (remotePlayers st) false in
    let st' := with_remotePlayers reg st in
    (st', effs ++ (if changed then notifyConnectionChange st' else [])).

(** ** Outbound path *)

Definition broadcast (env : Env) (msg : MultiplayerMessage)
    (st : MultiplayerManager) : list Effect :=
  if destroyed st then []
  else
    let msgWithId :=
      {| wire_msg := msg;
         wire_msgId := Some (peerId st +:+ "-" +:+ pretty (date_now env)
                               +:+ "-" +:+ random_id env) |} in
    (match bcChannel st with
     | Some ChannelOpen => [PostMessage msgWithId]
     | Some ChannelClosed | None => []
     end)
    ++
    (match localStorage env with
     | Some _ =>
         let key := room_prefix st +:+ pretty (date_now env)
                      +:+ "-" +:+ random_key env in
         [SetItem key {| wrapper_from := peerId st; wrapper_data := msgWithId |};
          SetTimeout (RemoveItemTask key) 600]
     | None => []
     end).

Definition announceJoin (env : Env) (st : MultiplayerManager) : list Effect :=
  if destroyed st then []
  else broadcast env (PlayerJoin (peerId st) (playerName st) (playerColor st)) st.

Definition heartbeatInterval_tick (env : Env) (st : MultiplayerManager)
    : list Effect :=
  if destroyed st then []
  else broadcast env (Heartbeat (peerId st) (playerName st) (playerColor st)) st.

Definition sendPlayerUpdate (env : Env) (player : PlayerState)
    (st : MultiplayerManager) : list Effect :=
  broadcast env
    (PlayerUpdate
       {| ps_x := ps_x player; ps_y := ps_y player;
          ps_vx := ps_vx player; ps_vy := ps_vy player;
          ps_width := ps_width player; ps_height := ps_height player;
          ps_onGround := ps_onGround player;
          ps_color := ps_color player; ps_name := ps_name player;
          ps_isDead := ps_isDead player; ps_hasWon := ps_hasWon player;
          ps_deaths := ps_deaths player |}
       (peerId st)) st.

Definition sendLevelChange (env : Env) (level : number)
    (st : MultiplayerManager) : list Effect :=
  broadcast env (LevelChange level (peerId st)) st.

Definition startGame (env : Env) (level : number)
    (st : MultiplayerManager) : list Effect :=
  broadcast env (StartGame level (peerId st)) st.

(** ** Teardown *)

Definition room_key (st : MultiplayerManager) (key : string) : bool :=
  truthy key && String.prefix (room_prefix st) key.

Definition destroy (env : Env) (st : MultiplayerManager)
    : MultiplayerManager * list Effect :=
  let st1 := with_destroyed true st in
  let announced := broadcast env (PlayerLeft (peerId st1)) st1 in
  let st2 := match bcChannel st1 with
             | Some _ => with_bcChannel (Some ChannelClosed) st1
             | None => st1
             end in
  (with_remotePlayers [] st2,
   announced
   ++ [ClearInterval HeartbeatInterval; ClearInterval CleanupInterval]
   ++ (match bcChannel st1 with Some _ => [CloseChannel] | None => [] end)
   ++ (if storageHandler st1 then [RemoveStorageListener] else [])
   ++ (match localStorage env with
       | Some keys => map RemoveItem (filter (fun k => room_key st1 k = true) keys)
       | None => []
       end)).

(** ** Construction

    [rand36] and [stamp36] are the base-36 renderings the constructor
    takes from [Math.random()] and [Date.now()]; [bcSupported] tells
    whether [new BroadcastChannel(..)] succeeds. *)
Definition construct (rand36 stamp36 : string)
    (room name color : string) (host : bool) (bcSupported : bool) (env : Env)
    : MultiplayerManager * list Effect :=
  let st :=
    {| peerId := "p-" +:+ rand36 +:+ "-" +:+ stamp36;
       roomId := room; isHost := host;
       playerName := name; playerColor := color;
       remotePlayers := [];
       bcChannel := if bcSupported then Some ChannelOpen else None;
       storageHandler := true;
       destroyed := false;
       seenMessageIds := [] |} in
  (st,
   [SetTimeout ReadyTask 100;
    SetInterval HeartbeatTask 400;
    SetInterval CleanupTask 2000]
   ++ announceJoin env st
   ++ [SetTimeout AnnounceJoinTask 200; SetTimeout AnnounceJoinTask 600;
       SetTimeout AnnounceJoinTask 1200; SetTimeout AnnounceJoinTask 2500]).

(** ** The instance as a reactive system

    Everything that can run on an instance after construction: a
    delivery on either transport, a timer firing, or a call from the
    game. The event loop runs one body at a time, to completion. *)
Inductive Input :=
| BcDelivery (data : WireMessage)
| StorageDelivery (e : StorageEvent)
| Fire (task : Task)
| CallSendPlayerUpdate (player : PlayerState)
| CallSendLevelChange (level : number)
| CallStartGame (level : number)
| CallDestroy.

Definition fire (env : Env) (task : Task) (st : MultiplayerManager)
    : MultiplayerManager * list Effect :=
  match task with
  | ReadyTask =>
      (st, if destroyed st then [] else [OnStatusChange status_ready])
  | HeartbeatTask => (st, heartbeatInterval_tick env st)
  | CleanupTask => cleanupInterval_tick (date_now env) st
  | AnnounceJoinTask => (st, announceJoin env st)
  | RemoveItemTask key =>
      (st, match localStorage env with
           | Some _ => [RemoveItem key]
           | None => []
           end)
  end.

Definition step (env : Env) (i : Input) (st : MultiplayerManager)
    : MultiplayerManager * list Effect :=
  match i with
  | BcDelivery data => bcChannel_onmessage (date_now env) data st
  | StorageDelivery e => storageHandler_call (date_now env) e st
  | Fire task => fire env task st
  | CallSendPlayerUpdate player => (st, sendPlayerUpdate env player st)
  | CallSendLevelChange level => (st, sendLevelChange env level st)
  | CallStartGame level => (st, startGame env level st)
  | CallDestroy => destroy env st
  end.

(** A schedule is the sequence of bodies the event loop runs, each
    with the environment it observes. *)
Fixpoint run (schedule : list (Env * Input)) (st : MultiplayerManager)
    : MultiplayerManager :=
  match schedule with
  | [] => st
  | (env, i) :: rest => run rest (fst (step env i st))
  end.

Fixpoint trace (schedule : list (Env * Input)) (st : MultiplayerManager)
    : list Effect :=
  match schedule with
  | [] => []
  | (env, i) :: rest =>
      snd (step env i st) ++ trace rest (fst (step env i st))
  end.

(** ** Observations on effect lists *)

Definition statuses (effs : list Effect) : list string :=
  flat_map (fun e => match e with OnStatusChange s => [s] | _ => [] end) effs.

Definition connection_counts (effs : list Effect) : list nat :=
  flat_map (fun e => match e with OnConnectionChange n => [n] | _ => [] end) effs.

Definition player_lists (effs : list Effect) : list (list RemotePlayerInfo) :=
  flat_map (fun e => match e with OnPlayerListChange l => [l] | _ => [] end) effs.

Definition messages (effs : list Effect) : list MultiplayerMessage :=
  flat_map (fun e => match e with OnMessage m => [m] | _ => [] end) effs.

(** An effect that puts a message on one of the two transports. *)
Definition is_send (e : Effect) : bool :=
  match e with
  | PostMessage _ | SetItem _ _ => true
  | _ => false
  end.

(** The two membership hooks fire as a pair, the count first, and both
    describe the registry [reg]. *)
Fixpoint membership_paired (reg : JsMap RemotePlayerInfo) (effs : list Effect)
    : Prop :=
  match effs with
  | [] => True
  | OnConnectionChange n :: rest =>
      match rest with
      | OnPlayerListChange l :: _ =>
          n = Map_size reg /\ l = Map_values reg /\ n = length l
      | _ => False
      end /\ membership_paired reg rest
  | OnPlayerListChange _ :: rest => membership_paired reg rest
  | _ :: rest => membership_paired reg rest
  end.

(** No [OnPlayerListChange] without the [OnConnectionChange] before it. *)
Fixpoint list_change_announced (prev_is_count : bool) (effs : list Effect)
    : Prop :=
  match effs with
  | [] => True
  | OnPlayerListChange _ :: rest =>
      prev_is_count = true /\ list_change_announced false rest
  | OnConnectionChange _ :: rest => list_change_announced true rest
  | _ :: rest => list_change_announced false rest
  end.

(** An effect other than the two membership hooks. *)
Definition quiet (e : Effect) : bool :=
  match e with
  | OnConnectionChange _ | OnPlayerListChange _ => false
  | _ => true
  end.

(** What one liveness pass announces for the entries it evicts. *)
Definition departures (now : Z) (entries : JsMap RemotePlayerInfo) : list Effect :=
  flat_map (fun '(id, player) =>
              if stale now player
              then [OnStatusChange (status_timed_out (info_name player));
                    OnMessage (PlayerLeft id)]
              else [])
           entries.

(** The entries a pass at time [now] finds outside the window. *)
Definition evicted (now : Z) (entries : JsMap RemotePlayerInfo)
    : JsMap RemotePlayerInfo :=
  filter (fun kv => stale now (snd kv) = true) entries.

(** The entries it finds inside. *)
Definition retained (now : Z) (entries : JsMap RemotePlayerInfo)
    : JsMap RemotePlayerInfo :=
  filter (fun kv => stale now (snd kv) = false) entries.

(** Every entry is inside the liveness window at time [now]. *)
Definition within_window (now : Z) (reg : JsMap RemotePlayerInfo) : Prop :=
  forall id player,
    Map_get id reg = Some player -> (now - info_lastSeen player <= 3000)%Z.

(** The schedule runs forward in time and has ended by [now]. *)
Fixpoint chronological (schedule : list (Env * Input)) (now : Z) : Prop :=
  match schedule with
  | [] => True
  | (env, _) :: rest =>
      (date_now env <= now)%Z
      /\ Forall (fun ei => (date_now env <= date_now (fst ei))%Z) rest
      /\ chronological rest now
  end.

(** The instance is well formed: the registry is a [Map] (no key
    twice), the deduplication set is within its bound, and a destroyed
    instance has an empty registry. *)
Definition well_formed (st : MultiplayerManager) : Prop :=
  NoDup (Map_keys (remotePlayers st))
  /\ length (seenMessageIds st) <= 200
  /\ (destroyed st = true -> remotePlayers st = []).

(** Which deliveries carry the wire message [data] to the dispatcher of
    [st]: the broadcast channel event itself, or a storage event for
    this room whose record comes from another peer. *)
Definition carries (st : MultiplayerManager) (i : Input) (data : WireMessage)
    : Prop :=
  match i with
  | BcDelivery d => d = data
  | StorageDelivery e =>
      exists key value from,
        e = {| ev_key := Some key; ev_newValue := Some value |}
        /\ room_key st key = true
        /\ truthy value = true
        /\ JSON_parse value = Some {| wrapper_from := from; wrapper_data := data |}
        /\ from <> peerId st
  | _ => False
  end.

(** The delivery [i] brings a message whose sender is this instance:
    either the message's own [peerId], or the [from] of the storage
    record around it. *)
Definition from_self (st : MultiplayerManager) (i : Input) : bool :=
  match i with
  | BcDelivery data => bool_decide (msg_peerId (wire_msg data) = peerId st)
  | StorageDelivery e =>
      match ev_newValue e with
      | Some value =>
          match JSON_parse value with
          | Some wrapper =>
              bool_decide (wrapper_from wrapper = peerId st)
              || bool_decide (msg_peerId (wire_msg (wrapper_data wrapper)) = peerId st)
          | None => false
          end
      | None => false
      end
  | _ => false
  end.

(** The message a delivery gets accepted: the one that passes the
    [destroyed] check, the transport's own checks and the deduplicator,
    and that the dispatcher does not discard as its own. *)
Definition accepted (i : Input) (st : MultiplayerManager)
    : option MultiplayerMessage :=
  let dispatched (data : WireMessage) :=
    match deduplicate data st with
    | Some _ =>
        if decide (msg_peerId (wire_msg data) = peerId st) then None
        else Some (wire_msg data)
    | None => None
    end in
  if destroyed st then None
  else
    match i with
    | BcDelivery data => dispatched data
    | StorageDelivery e =>
        match ev_key e, ev_newValue e with
        | Some key, Some value =>
            if room_key st key && truthy value then
              match JSON_parse value with
              | Some wrapper =>
                  if decide (wrapper_from wrapper = peerId st) then None
                  else dispatched (wrapper_data wrapper)
              | None => None
              end
            else None
        | _, _ => None
        end
    | _ => None
    end.

(** The times at which the schedule had a message of [peer] accepted. *)
Fixpoint accepted_times (peer : string) (schedule : list (Env * Input))
    (st : MultiplayerManager) : list Z :=
  match schedule with
  | [] => []
  | (env, i) :: rest =>
      match accepted i st with
      | Some msg => if decide (msg_peerId msg = peer) then [date_now env] else []
      | None => []
      end ++ accepted_times peer rest (fst (step env i st))
  end.

(** At time [now], after the schedule, [peer] has a registry entry
    exactly when one of its messages was accepted in the last 3000 ms. *)
Definition entry_iff_recent (schedule : list (Env * Input))
    (st : MultiplayerManager) (now : Z) (peer : string) : Prop :=
  Map_has peer (remotePlayers (run schedule st)) = true
  <-> exists t, t ∈ accepted_times peer schedule st /\ (now - t <= 3000)%Z.

(** The display name a presence message carries. *)
Definition msg_name (m : MultiplayerMessage) : option string :=
  match m with
  | PlayerJoin _ name _ | Heartbeat _ name _ => Some name
  | PlayerUpdate player _ => Some (ps_name player)
  | LevelChange _ _ | StartGame _ _ | PlayerLeft _ => None
  end.

Definition is_playerLeft (m : MultiplayerMessage) : bool :=
  match m with PlayerLeft _ => true | _ => false end.

(** The messages that refresh the sender's registry entry. *)
Definition is_presence (m : MultiplayerMessage) : bool :=
  match m with
  | PlayerJoin _ _ _ | Heartbeat _ _ _ | PlayerUpdate _ _ => true
  | LevelChange _ _ | StartGame _ _ | PlayerLeft _ => false
  end.

(** What a body run at [now] makes of the time [peer] was last heard,
    given the message it got accepted: a [playerJoin], [heartbeat] or
    [playerUpdate] of the peer sets it to [now], a [playerLeft] of the
    peer forgets it, anything else leaves it. *)
Definition hear (peer : string) (now : Z) (got : option MultiplayerMessage)
    (heard : option Z) : option Z :=
  match got with
  | Some msg =>
      if decide (msg_peerId msg = peer) then
        if is_presence msg then Some now
        else if is_playerLeft msg then None
        else heard
      else heard
  | None => heard
  end.

(** When [peer] was last heard over a schedule: the time of its latest
    accepted [playerJoin], [heartbeat] or [playerUpdate], provided no
    [playerLeft] of the peer was accepted after it. *)
Fixpoint last_heard (peer : string) (schedule : list (Env * Input))
    (st : MultiplayerManager) (heard : option Z) : option Z :=
  match schedule with
  | [] => heard
  | (env, i) :: rest =>
      last_heard peer rest (fst (step env i st))
        (hear peer (date_now env) (accepted i st) heard)
  end.

(** The registry entry of [peer] agrees with the time the peer was
    last heard: an entry carries that time, and a live instance that
    has heard the peer and holds no entry for it has read a clock more
    than 3000 ms past that time. *)
Definition tracked (peer : string) (clock : Z) (heard : option Z)
    (st : MultiplayerManager) : Prop :=
  (forall info,
      Map_get peer (remotePlayers st) = Some info ->
      heard = Some (info_lastSeen info))
  /\ (forall t,
        heard = Some t ->
        destroyed st = false ->
        Map_get peer (remotePlayers st) = None ->
        (clock - t > 3000)%Z).

(** The entry of the sender of [msg] carries the time [now]. *)
Definition refreshed (now : Z) (msg : MultiplayerMessage)
    (st : MultiplayerManager) : Prop :=
  exists info,
    Map_get (msg_peerId msg) (remotePlayers st) = Some info
    /\ info_lastSeen info = now.

(** The full set of join notifications, each fired once: the "peer
    joined" status for [name], then the count and the player list of
    the registry of [st]. *)
Definition join_notified (name : string) (st : MultiplayerManager)
    (effs : list Effect) : Prop :=
  statuses effs = [status_joined name]
  /\ connection_counts effs = [getConnectedCount st]
  /\ player_lists effs = [getPlayerList st].

(** No membership hook fires. *)
Definition membership_silent (effs : list Effect) : Prop :=
  connection_counts effs = [] /\ player_lists effs = [].

(** The membership hooks fire once, for the registry of [st]. *)
Definition membership_notified (st : MultiplayerManager) (effs : list Effect)
    : Prop :=
  connection_counts effs = [getConnectedCount st]
  /\ player_lists effs = [getPlayerList st].

(** The delivery [i] is a storage record written by this instance. *)
Definition own_record (st : MultiplayerManager) (i : Input) : bool :=
  match i with
  | StorageDelivery e =>
      match ev_newValue e with
      | Some value =>
          match JSON_parse value with
          | Some wrapper => bool_decide (wrapper_from wrapper = peerId st)
          | None => false
          end
      | None => false
      end
  | _ => false
  end.

(** ** Room id helpers

    The three static helpers. [generateRoomLink] builds its result with
    the platform's [URL] object and is not modelled; what the other two
    need from it is that the link ends in [#room=<id>]. *)

Definition room_alphabet : string := "ABCDEFGHJKLMNPQRSTUVWXYZ23456789".

(** [chars.charAt(i)]: one character, or the empty string out of range. *)
Definition charAt (chars : string) (i : nat) : string :=
  match String.get i chars with
  | Some c => String c EmptyString
  | None => EmptyString
  end.

(** The loop of [generateRoomId] from iteration [i], with [n] iterations
    to go; [draw i] is [Math.floor(Math.random() * chars.length)] as
    iteration [i] computes it. *)
Fixpoint generateRoomId_from (draw : nat -> nat) (i n : nat) (id : string)
    : string :=
  match n with
  | 0 => id
  | S n' =>
      generateRoomId_from draw (S i) n' (id +:+ charAt room_alphabet (draw i))
  end.

Definition generateRoomId (draw : nat -> nat) : string :=
  generateRoomId_from draw 0 6 EmptyString.

(** The class [[a-zA-Z0-9-]]. *)
Definition room_id_char (c : Ascii.ascii) : bool :=
  let n := Ascii.nat_of_ascii c in
  (Nat.leb 97 n && Nat.leb n 122)
  || (Nat.leb 65 n && Nat.leb n 90)
  || (Nat.leb 48 n && Nat.leb n 57)
  || Nat.eqb n 45.

(** The longest run of class characters at the head of [s]. *)
Fixpoint take_room_id (s : string) : string :=
  match s with
  | EmptyString => EmptyString
  | String c rest =>
      if room_id_char c then String c (take_room_id rest) else EmptyString
  end.

Fixpoint drop_chars (n : nat) (s : string) : string :=
  match n, s with
  | 0, _ => s
  | S n', String _ rest => drop_chars n' rest
  | S _, EmptyString => EmptyString
  end.

(** [/room=([a-zA-Z0-9-]+)/] tried at the head of [s]: the capture. *)
Definition match_room_here (s : string) : option string :=
  if String.prefix "room=" s then
    let captured := take_room_id (drop_chars 5 s) in
    if truthy captured then Some captured else None
  else None.

(** [s.match(/room=([a-zA-Z0-9-]+)/)]: the leftmost position where the
    pattern matches, and there the longest capture. (Strings are byte
    strings here. The pattern is ASCII, and in UTF-8 no byte of a
    non-ASCII character is an ASCII byte, so matching on bytes finds
    what matching on characters finds.) *)
Fixpoint match_room (s : string) : option string :=
  match match_room_here s with
  | Some captured => Some captured
  | None =>
      match s with
      | EmptyString => None
      | String _ rest => match_room rest
      end
  end.

(** [hash] is [window.location.hash]. *)
Definition getRoomIdFromURL (hash : string) : option string := match_room hash.

Definition room_id_string (s : string) : bool :=
  forallb room_id_char (list_ascii_of_string s).

Definition has_dash (s : string) : bool :=
  existsb (fun c => Nat.eqb (Ascii.nat_of_ascii c) 45) (list_ascii_of_string s).

(** ** The game canvas as a consumer of [onMessage]

    The handler the canvas installs keeps the game's own map of remote
    players; of the game state only that map is kept here, [None] when
    there is no game state yet. *)
Definition canvas_onMessage (msg : MultiplayerMessage)
    (state : option (JsMap PlayerState)) : option (JsMap PlayerState) :=
  match state with
  | None => None
  | Some remote =>
      Some (match msg with
            | PlayerUpdate player peer => Map_set peer player remote
            | PlayerLeft peer => Map_delete peer remote
            | _ => remote
            end)
  end.

(** The hook applied to what a manager body fires, in order. *)
Definition canvas_feed (effs : list Effect)
    (state : option (JsMap PlayerState)) : option (JsMap PlayerState) :=
  fold_left (fun s e => match e with
                        | OnMessage m => canvas_onMessage m s
                        | _ => s
                        end) effs state.

(** What happens around the canvas: a manager body runs, or [initLevel]
    replaces the game state ([levelExists] tells whether
    [levels[currentLevel]] is there). *)
Inductive CanvasEvent :=
| ManagerStep (env : Env) (i : Input)
| InitLevel (levelExists : bool).

Definition canvas_step (ev : CanvasEvent)
    (sys : MultiplayerManager * option (JsMap PlayerState))
    : MultiplayerManager * option (JsMap PlayerState) :=
  match ev with
  | ManagerStep env i =>
      (fst (step env i (fst sys)), canvas_feed (snd (step env i (fst sys))) (snd sys))
  | InitLevel levelExists =>
      (fst sys, if levelExists then Some [] else snd sys)
  end.

Definition canvas_run (events : list CanvasEvent)
    (sys : MultiplayerManager * option (JsMap PlayerState))
    : MultiplayerManager * option (JsMap PlayerState) :=
  fold_left (fun s ev => canvas_step ev s) events sys.

(** The peers the game holds, none without a game state. *)
Definition canvas_peers (state : option (JsMap PlayerState)) : list string :=
  match state with
  | Some remote => Map_keys remote
  | None => []
  end.

(** ** More observations *)

Definition game_starts (effs : list Effect) : list number :=
  flat_map (fun e => match e with OnGameStart l => [l] | _ => [] end) effs.

(** An effect of the teardown path: a timer cleared, the channel closed,
    the listener or a storage key removed. *)
Definition is_teardown (e : Effect) : bool :=
  match e with
  | ClearInterval _ | CloseChannel | RemoveStorageListener | RemoveItem _ => true
  | _ => false
  end.

(** What every message an instance puts on a transport looks like: it
    names the instance as its sender and has a non-empty message id; a
    storage record also names the instance in [from] and sits under a
    key of the instance's room. *)
Definition stamped (st : MultiplayerManager) (e : Effect) : Prop :=
  match e with
  | PostMessage data =>
      msg_peerId (wire_msg data) = peerId st
      /\ truthy_opt (wire_msgId data) = true
  | SetItem key wrapper =>
      wrapper_from wrapper = peerId st
      /\ room_key st key = true
      /\ msg_peerId (wire_msg (wrapper_data wrapper)) = peerId st
      /\ truthy_opt (wire_msgId (wrapper_data wrapper)) = true
  | _ => True
  end.

(** The id [broadcast] stamps on a message sent in [env]. *)
Definition message_id (env : Env) (st : MultiplayerManager) : string :=
  peerId st +:+ "-" +:+ pretty (date_now env) +:+ "-" +:+ random_id env.

(** The storage key [broadcast] writes in [env]. *)
Definition storage_key (env : Env) (st : MultiplayerManager) : string :=
  room_prefix st +:+ pretty (date_now env) +:+ "-" +:+ random_key env.

(** The registry lists only other peers, each under its own id. *)
Definition registry_consistent (st : MultiplayerManager) : Prop :=
  (peerId st ∉ Map_keys (remotePlayers st))
  /\ forall k info, (k, info) ∈ remotePlayers st -> info_id info = k.


(** The instance once its deduplicator has taken in the id [msgId]:
    [add], then the cut back to the last 100 ids when that made more
    than 200. *)
Definition remembering (msgId : string) (st : MultiplayerManager)
    : MultiplayerManager :=
  let seen := Set_add msgId (seenMessageIds st) in
  with_seenMessageIds
    (if bool_decide (200 < length seen) then slice_last 100 seen else seen) st.

(** The send effect [e] of some instance, delivered to [st] in [env] (a
    storage record as any non-empty text that parses back to it), runs
    the transport's handler through to the dispatcher: the handler
    ends as [handleIncomingMessage] ends on [msg], with the id [msgId]
    remembered, and fires what the dispatcher fires. *)
Definition delivered (env : Env) (st : MultiplayerManager)
    (msg : MultiplayerMessage) (msgId : string) (e : Effect) : Prop :=
  match e with
  | PostMessage data =>
      step env (BcDelivery data) st
      = handleIncomingMessage (date_now env) msg (remembering msgId st)
  | SetItem key wrapper =>
      forall value,
        truthy value = true ->
        JSON_parse value = Some wrapper ->
        step env
          (StorageDelivery {| ev_key := Some key; ev_newValue := Some value |}) st
        = handleIncomingMessage (date_now env) msg (remembering msgId st)
  | _ => True
  end.

(** The send effect [e], delivered back to [st], does nothing to the
    registry and fires nothing. *)
Definition echo_ignored (env : Env) (st : MultiplayerManager) (e : Effect)
    : Prop :=
  match e with
  | PostMessage data =>
      remotePlayers (fst (step env (BcDelivery data) st)) = remotePlayers st
      /\ snd (step env (BcDelivery data) st) = []
  | SetItem key wrapper =>
      forall value,
        JSON_parse value = Some wrapper ->
        step env
          (StorageDelivery {| ev_key := Some key; ev_newValue := Some value |}) st
        = (st, [])
  | _ => True
  end.

(** A destroyed instance as [destroy] leaves it. *)
Definition torn_down (st : MultiplayerManager) : Prop :=
  destroyed st = true
  /\ remotePlayers st = []
  /\ bcChannel st <> Some ChannelOpen.


(** The storage record [e] of some instance, delivered to [st] with
    whatever value, is ignored there. *)
Definition record_ignored (now : Z) (st : MultiplayerManager) (e : Effect)
    : Prop :=
  match e with
  | SetItem key _ =>
      forall value,
        storageHandler_call now {| ev_key := Some key; ev_newValue := value |} st
        = (st, [])
  | _ => True
  end.

(** The kinds of message the dispatcher hands to [onMessage]. *)
Definition to_onMessage (msg : MultiplayerMessage) : bool :=
  match msg with
  | PlayerUpdate _ _ | PlayerLeft _ | LevelChange _ _ => true
  | _ => false
  end.

(** The deduplication set is a set of non-empty ids. *)
Definition seen_ok (seen : list string) : Prop :=
  NoDup seen /\ EmptyString ∉ seen.

(** An instance of room [room], for statements about rooms. *)
Definition in_room (room : string) (st : MultiplayerManager) : MultiplayerManager :=
  {| peerId := peerId st; roomId := room; isHost := isHost st;
     playerName := playerName st; playerColor := playerColor st;
     remotePlayers := remotePlayers st;
     bcChannel := bcChannel st; storageHandler := storageHandler st;
     destroyed := destroyed st; seenMessageIds := seenMessageIds st |}.


(** [c] is one of the characters of [room_alphabet]. *)
Definition in_alphabet (c : Ascii.ascii) : bool :=
  existsb (Ascii.eqb c) (list_ascii_of_string room_alphabet).

Definition alphabet_string (s : string) : bool :=
  forallb in_alphabet (list_ascii_of_string s).

(** [s] is empty or starts with a character outside the class, so that
    a capture cannot run into it. *)
Definition stops_capture (s : string) : bool :=
  match s with
  | EmptyString => true
  | String c _ => negb (room_id_char c)
  end.


(** Every peer the game holds is in the registry [reg]. *)
Definition canvas_covered (reg : JsMap RemotePlayerInfo)
    (state : option (JsMap PlayerState)) : Prop :=
  forall k, k ∈ canvas_peers state -> k ∈ Map_keys reg.

(** What one liveness pass makes the canvas do to its map. *)
Definition canvas_evict (now : Z) (entries : JsMap RemotePlayerInfo)
    (remote : JsMap PlayerState) : JsMap PlayerState :=
  fold_left (fun g kv => if stale now (snd kv) then Map_delete (fst kv) g else g)
            entries remote.


(** No entry of [reg] is stamped later than [now]. *)
Definition seen_by (now : Z) (reg : JsMap RemotePlayerInfo) : Prop :=
  forall k info, (k, info) ∈ reg -> (info_lastSeen info <= now)%Z.


(** ** Sample instances *)

Definition alice : MultiplayerManager :=
  {| peerId := "p-alice000-k1"; roomId := "ABCDEF"; isHost := true;
     playerName := "Alice"; playerColor := "#ff0000";
     remotePlayers := [];
     bcChannel := Some ChannelOpen; storageHandler := true;
     destroyed := false; seenMessageIds := [] |}.

Definition bob : RemotePlayerInfo := mkInfo "p-bob00000-k2" "Bob" "#00ff00" 1000.
Definition carol : RemotePlayerInfo := mkInfo "p-carol000-k3" "Carol" "#0000ff" 4000.

(** Alice with Bob and Carol in the room. *)
Definition alice_in_room : MultiplayerManager :=
  with_remotePlayers [(info_id bob, bob); (info_id carol, carol)] alice.

(** Bob's heartbeat as it travels, with its message id. *)
Definition bob_heartbeat : WireMessage :=
  {| wire_msg := Heartbeat (info_id bob) "Bob" "#00ff00";
     wire_msgId := Some "p-bob00000-k2-1700000000000-x7q2" |}.

(** The storage event that relays [data] from Bob to Alice's room. *)
Definition bob_record : StorageEvent :=
  {| ev_key := Some "cr-ABCDEF-1700000000000-9zk1";
     ev_newValue := Some "{from:bob}" |}.

(** A record of Alice's own, with a payload that names Bob. *)
Definition alice_record : StorageEvent :=
  {| ev_key := Some "cr-ABCDEF-1700000000000-4c0d";
     ev_newValue := Some "{from:alice}" |}.

(** A parser that knows the two records above around [data]. *)
Definition sample_parse (data : WireMessage) (text : string) : option Wrapper :=
  if decide (text = "{from:bob}")
  then Some {| wrapper_from := info_id bob; wrapper_data := data |}
  else if decide (text = "{from:alice}")
  then Some {| wrapper_from := peerId alice; wrapper_data := data |}
  else None.

Definition env_at (now : Z) : Env :=
  {| date_now := now; random_id := "ab12"; random_key := "cd34";
     localStorage := Some [] |}.

(** Bob's own instance, in Alice's room. *)
Definition bob_manager : MultiplayerManager :=
  {| peerId := info_id bob; roomId := "ABCDEF"; isHost := false;
     playerName := "Bob"; playerColor := "#00ff00";
     remotePlayers := [];
     bcChannel := Some ChannelOpen; storageHandler := true;
     destroyed := false; seenMessageIds := [] |}.

(** A position update of Bob as it travels, every number being [n]. *)
Definition bob_update (n : number) : WireMessage :=
  {| wire_msg :=
       PlayerUpdate
         {| ps_x := n; ps_y := n; ps_vx := n; ps_vy := n;
            ps_width := n; ps_height := n; ps_onGround := true;
            ps_color := "#00ff00"; ps_name := "Bob";
            ps_isDead := false; ps_hasWon := false; ps_deaths := n |}
         (info_id bob);
     wire_msgId := Some "p-bob00000-k2-1700000000400-u1" |}.

(** Bob's heartbeat as his own instance stamps it at 5000. *)
Definition bob_stamped : WireMessage :=
  {| wire_msg := Heartbeat (peerId bob_manager) "Bob" "#00ff00";
     wire_msgId := Some (message_id (env_at 5000) bob_manager) |}.

(** Six draws of [generateRoomId]. *)
Definition sample_draw (i : nat) : nat := (7 * i + 3) mod 32.

(** * Properties *)

Set Default Proof Using "Type".

(** ** The [Map] operations *)

Lemma Map_get_set_eq {V} (k : string) (v : V) (m : JsMap V) :
  Map_get k (Map_set k v m) = Some v.
Proof.
  induction m as [|[k' v'] m IH]; simpl.
  - by rewrite decide_True.
  - destruct (decide (k = k')) as [->|Hne]; simpl.
    + by rewrite decide_True.
    + by rewrite decide_False.
Qed.

Lemma Map_get_set_ne {V} (k k0 : string) (v : V) (m : JsMap V) :
  k0 <> k -> Map_get k0 (Map_set k v m) = Map_get k0 m.
Proof.
  intros Hne. induction m as [|[k' v'] m IH]; simpl.
  - by rewrite decide_False.
  - destruct (decide (k = k')) as [->|Hkk']; simpl.
    + by rewrite !decide_False.
    + destruct (decide (k0 = k')); auto.
Qed.

Lemma Map_get_None_keys {V} (k : string) (m : JsMap V) :
  Map_get k m = None <-> k ∉ Map_keys m.
Proof.
  unfold Map_keys. induction m as [|[k' v'] m IH].
  - split; [intros _; apply not_elem_of_nil | done].
  - rewrite fmap_cons, not_elem_of_cons. cbn [Map_get fst]. destruct (decide (k = k')) as [->|Hne]; simpl.
    + split; [done | intros [? _]; done].
    + rewrite IH. split; [by split | by intros [_ ?]].
Qed.

Lemma Map_get_Some_elem {V} (k : string) (v : V) (m : JsMap V) :
  Map_get k m = Some v -> (k, v) ∈ m.
Proof.
  induction m as [|[k' v'] m IH]; simpl; [done|].
  destruct (decide (k = k')) as [->|Hne].
  - intros [= ->]. apply list_elem_of_here.
  - intros H. apply list_elem_of_further. auto.
Qed.

Lemma Map_elem_get {V} (k : string) (v : V) (m : JsMap V) :
  NoDup (Map_keys m) -> (k, v) ∈ m -> Map_get k m = Some v.
Proof.
  unfold Map_keys. induction m as [|[k' v'] m IH].
  - intros _ H. by apply elem_of_nil in H.
  - rewrite fmap_cons, NoDup_cons. intros [Hnotin Hnd] Hin. cbn [Map_get fst] in *.
    apply elem_of_cons in Hin as [[= -> ->]|Hin].
    + by rewrite decide_True.
    + destruct (decide (k = k')) as [->|Hne]; [|auto].
      exfalso. apply Hnotin.
      apply list_elem_of_fmap. exists (k', v). auto.
Qed.

Lemma Map_has_true {V} (k : string) (m : JsMap V) :
  Map_has k m = true <-> exists v, Map_get k m = Some v.
Proof.
  unfold Map_has. destruct (Map_get k m); split; eauto; try done.
  intros [? ?]; done.
Qed.

Lemma Map_has_false {V} (k : string) (m : JsMap V) :
  Map_has k m = false <-> Map_get k m = None.
Proof. unfold Map_has. destruct (Map_get k m); split; done. Qed.

Lemma Map_keys_set {V} (k : string) (v : V) (m : JsMap V) :
  Map_keys (Map_set k v m) =
    if Map_has k m then Map_keys m else Map_keys m ++ [k].
Proof.
  unfold Map_keys, Map_has. induction m as [|[k' v'] m IH]; csimpl; [done|].
  destruct (decide (k = k')) as [->|Hne]; csimpl; [done|].
  rewrite IH. by destruct (Map_get k m).
Qed.

Lemma Map_size_set {V} (k : string) (v : V) (m : JsMap V) :
  Map_size (Map_set k v m) =
    if Map_has k m then Map_size m else S (Map_size m).
Proof.
  unfold Map_size, Map_has. induction m as [|[k' v'] m IH]; simpl; [done|].
  destruct (decide (k = k')) as [->|Hne]; simpl; [done|].
  rewrite IH. by destruct (Map_get k m).
Qed.

Lemma Map_set_NoDup {V} (k : string) (v : V) (m : JsMap V) :
  NoDup (Map_keys m) -> NoDup (Map_keys (Map_set k v m)).
Proof.
  intros Hnd. rewrite Map_keys_set.
  destruct (Map_has k m) eqn:Hhas; [done|].
  apply NoDup_app. split_and!; [done| |apply NoDup_singleton].
  intros x Hx Hx'. apply list_elem_of_singleton in Hx' as ->.
  apply Map_has_false, Map_get_None_keys in Hhas. done.
Qed.

Lemma filter_all {A} (P : A -> Prop) `{forall x, Decision (P x)} (l : list A) :
  Forall P l -> filter P l = l.
Proof.
  induction 1 as [|x l HP _ IH]; [done|].
  by rewrite filter_cons_True, IH.
Qed.

Lemma Map_delete_filter {V} (k : string) (m : JsMap V) :
  NoDup (Map_keys m) ->
  Map_delete k m = filter (fun kv => fst kv <> k) m.
Proof.
  unfold Map_keys. induction m as [|[k' v'] m IH]; [done|].
  rewrite fmap_cons, NoDup_cons. intros [Hnotin Hnd]. cbn [Map_delete fst].
  destruct (decide (k = k')) as [->|Hne].
  - rewrite filter_cons_False by (simpl; auto).
    symmetry. apply filter_all, Forall_forall.
    intros [k0 v0] Hin; simpl. intros ->. apply Hnotin.
    apply list_elem_of_fmap. exists (k', v0). auto.
  - rewrite filter_cons_True by (simpl; auto). by rewrite IH.
Qed.

Lemma filter_keys_NoDup {V} (P : string * V -> Prop)
    `{forall x, Decision (P x)} (m : JsMap V) :
  NoDup (Map_keys m) -> NoDup (Map_keys (filter P m)).
Proof.
  unfold Map_keys. induction m as [|kv m IH]; [done|].
  rewrite fmap_cons, NoDup_cons. intros [Hnotin Hnd].
  rewrite filter_cons. destruct (decide (P kv)); [|auto].
  rewrite fmap_cons, NoDup_cons. split; [|auto].
  intros Hin. apply Hnotin.
  apply list_elem_of_fmap in Hin as (y & -> & Hy).
  apply list_elem_of_filter in Hy as [_ Hy].
  apply list_elem_of_fmap. eauto.
Qed.

Lemma Map_delete_NoDup {V} (k : string) (m : JsMap V) :
  NoDup (Map_keys m) -> NoDup (Map_keys (Map_delete k m)).
Proof.
  intros Hnd. rewrite Map_delete_filter by done. by apply filter_keys_NoDup.
Qed.

Lemma Map_get_filter {V} (P : string * V -> Prop)
    `{forall x, Decision (P x)} (k : string) (v : V) (m : JsMap V) :
  NoDup (Map_keys m) ->
  Map_get k (filter P m) = Some v <-> Map_get k m = Some v /\ P (k, v).
Proof.
  intros Hnd. split.
  - intros Hget. apply Map_get_Some_elem, list_elem_of_filter in Hget as [HP Hin].
    split; [by apply Map_elem_get | done].
  - intros [Hget HP]. apply Map_elem_get; [by apply filter_keys_NoDup|].
    apply list_elem_of_filter. split; [done | by apply Map_get_Some_elem].
Qed.

Lemma Map_get_delete_eq {V} (k : string) (m : JsMap V) :
  NoDup (Map_keys m) -> Map_get k (Map_delete k m) = None.
Proof.
  intros Hnd. rewrite Map_delete_filter by done.
  destruct (Map_get k (filter _ m)) as [v|] eqn:Hget; [|done].
  apply Map_get_filter in Hget as [_ Hne]; [|done]. simpl in Hne. done.
Qed.

Lemma Map_get_delete_ne {V} (k k0 : string) (m : JsMap V) :
  k0 <> k -> Map_get k0 (Map_delete k m) = Map_get k0 m.
Proof.
  intros Hne. induction m as [|[k' v'] m IH]; simpl; [done|].
  destruct (decide (k = k')) as [->|Hkk']; simpl.
  - by rewrite decide_False.
  - destruct (decide (k0 = k')); auto.
Qed.

(** ** Frame facts: what the handlers leave alone *)

Lemma handleIncomingMessage_frame now msg st :
  let st' := fst (handleIncomingMessage now msg st) in
  peerId st' = peerId st /\ roomId st' = roomId st
  /\ destroyed st' = destroyed st
  /\ seenMessageIds st' = seenMessageIds st.
Proof.
  unfold handleIncomingMessage, handlePresence.
  destruct (decide _); [done|].
  destruct msg; simpl; repeat case_match; done.
Qed.

Lemma deduplicate_frame data st st' :
  deduplicate data st = Some st' ->
  peerId st' = peerId st /\ roomId st' = roomId st
  /\ destroyed st' = destroyed st
  /\ remotePlayers st' = remotePlayers st.
Proof.
  unfold deduplicate. repeat case_match; intros [= <-]; done.
Qed.

Lemma handleIncomingMessage_self now msg st :
  msg_peerId msg = peerId st -> handleIncomingMessage now msg st = (st, []).
Proof. intros Heq. unfold handleIncomingMessage. by rewrite decide_True. Qed.

(** C7. A delivered message whose sender is this instance is never
    processed. On either transport a message carrying the instance's
    own [peerId] leaves the registry as it is and fires no hook and no
    other effect; and a storage record whose [from] is the instance's
    own id is dropped whatever its payload, before the payload is
    looked at, so that not even the deduplication set changes. *)
Theorem self_messages_never_processed env i st :
  from_self st i = true ->
  remotePlayers (fst (step env i st)) = remotePlayers st
  /\ snd (step env i st) = []
  /\ (if own_record st i then fst (step env i st) = st else True).
Proof.
  intros Hself.
  destruct i as [data|e| | | | |]; simpl in Hself; try done.
  - apply bool_decide_eq_true in Hself. simpl.
    unfold bcChannel_onmessage.
    destruct (destroyed st); [done|].
    destruct (deduplicate data st) as [st'|] eqn:Hd; [|done].
    apply deduplicate_frame in Hd as (Hp & _ & _ & Hr).
    rewrite handleIncomingMessage_self by congruence. simpl. by rewrite Hr.
  - simpl. unfold storageHandler_call.
    destruct (destroyed st); [by repeat case_match|].
    destruct (ev_key e) as [key|]; [|by repeat case_match].
    destruct (negb _ || negb _); [by repeat case_match|].
    destruct (ev_newValue e) as [value|]; [|done].
    destruct (negb (truthy value)); [by repeat case_match|].
    destruct (JSON_parse value) as [wrapper|]; [|done].
    destruct (decide (wrapper_from wrapper = peerId st)) as [|Hfrom].
    { by rewrite bool_decide_eq_true_2. }
    rewrite bool_decide_eq_false_2 in Hself |- * by done. simpl in Hself.
    apply bool_decide_eq_true in Hself.
    destruct (deduplicate (wrapper_data wrapper) st) as [st'|] eqn:Hd; [|done].
    apply deduplicate_frame in Hd as (Hp & _ & _ & Hr).
    rewrite handleIncomingMessage_self by congruence. simpl. by rewrite Hr.
Qed.

(** ** The dispatcher, case by case *)

(** C9. An accepted [playerLeft] removes the peer's entry at once,
    whatever its [lastSeen], and leaves the other entries as they are;
    when the peer was known the departure status carries its last
    known name, and whether it was known or not the connection count
    and the player list are notified exactly once, for the registry
    after the removal; the message is then handed to [onMessage]. *)
Theorem playerLeft_removes_and_notifies now peer st :
  peer <> peerId st ->
  NoDup (Map_keys (remotePlayers st)) ->
  let st' := fst (handleIncomingMessage now (PlayerLeft peer) st) in
  let effs := snd (handleIncomingMessage now (PlayerLeft peer) st) in
  Map_get peer (remotePlayers st') = None
  /\ remotePlayers st' = filter (fun kv => fst kv <> peer) (remotePlayers st)
  /\ statuses effs =
       match Map_get peer (remotePlayers st) with
       | Some leaving => [status_left (info_name leaving)]
       | None => []
       end
  /\ membership_notified st' effs
  /\ messages effs = [PlayerLeft peer].
Proof.
  intros Hne Hnd. unfold handleIncomingMessage. simpl.
  rewrite decide_False by done. simpl.
  split_and!.
  - by apply Map_get_delete_eq.
  - by apply Map_delete_filter.
  - by destruct (Map_get peer (remotePlayers st)).
  - by destruct (Map_get peer (remotePlayers st)).
  - by destruct (Map_get peer (remotePlayers st)).
Qed.

(** C2, as amended. An accepted [playerJoin], [heartbeat] or
    [playerUpdate] leaves the sender with a registry entry whose
    [lastSeen] is the current time. For [playerJoin] and [heartbeat]
    the entry takes the name and color of the message; for
    [playerUpdate] a known peer keeps its name and color and an unknown
    one takes those of the player state. [levelChange] and [startGame]
    do not touch the registry. *)
Theorem presence_messages_refresh_lastSeen now msg st :
  msg_peerId msg <> peerId st ->
  let st' := fst (handleIncomingMessage now msg st) in
  match msg with
  | PlayerJoin peer name color | Heartbeat peer name color =>
      refreshed now msg st'
      /\ Map_get peer (remotePlayers st') = Some (mkInfo peer name color now)
  | PlayerUpdate player peer =>
      refreshed now msg st'
      /\ Map_get peer (remotePlayers st') =
           Some (match Map_get peer (remotePlayers st) with
                 | Some existing => touch now existing
                 | None => mkInfo peer (ps_name player) (ps_color player) now
                 end)
  | LevelChange _ _ | StartGame _ _ => remotePlayers st' = remotePlayers st
  | PlayerLeft _ => True
  end.
Proof.
  intros Hne. unfold handleIncomingMessage, handlePresence, refreshed.
  rewrite decide_False by done.
  destruct msg as [player peer|level peer|peer name color|peer|level peer
                  |peer name color]; simpl in *; try done.
  - destruct (Map_get peer (remotePlayers st)) as [existing|]; simpl;
      rewrite Map_get_set_eq; eauto.
  - destruct (Map_has peer (remotePlayers st)); simpl;
      rewrite Map_get_set_eq; eauto.
  - destruct (Map_has peer (remotePlayers st)); simpl;
      rewrite Map_get_set_eq; eauto.
Qed.

(** C3, as amended. The first accepted [playerJoin] or [heartbeat] of
    an unknown peer makes it known and fires the "peer joined" status,
    the connection count and the player list, once each. The first
    accepted [playerUpdate] of an unknown peer makes it known and
    fires the connection count and the player list once each, and no
    status. Any of the three from a peer already known fires no
    status and no membership notification. *)
Theorem unknown_to_known_notifies_once now msg st :
  msg_peerId msg <> peerId st ->
  let st' := fst (handleIncomingMessage now msg st) in
  let effs := snd (handleIncomingMessage now msg st) in
  match msg with
  | PlayerJoin peer name _ | Heartbeat peer name _ =>
      Map_has peer (remotePlayers st') = true
      /\ if Map_has peer (remotePlayers st)
         then statuses effs = [] /\ membership_silent effs
         else join_notified name st' effs
  | PlayerUpdate _ peer =>
      Map_has peer (remotePlayers st') = true
      /\ statuses effs = []
      /\ if Map_has peer (remotePlayers st)
         then membership_silent effs
         else membership_notified st' effs
  | _ => True
  end.
Proof.
  intros Hne. unfold handleIncomingMessage, handlePresence.
  rewrite decide_False by done.
  destruct msg as [player peer|level peer|peer name color|peer|level peer
                  |peer name color]; simpl in *; try done.
  - unfold Map_has at 2.
    destruct (Map_get peer (remotePlayers st)) as [existing|]; simpl;
      (split; [apply Map_has_true; rewrite Map_get_set_eq; eauto | done]).
  - destruct (Map_has peer (remotePlayers st)); simpl;
      (split; [apply Map_has_true; rewrite Map_get_set_eq; eauto | done]).
  - destruct (Map_has peer (remotePlayers st)); simpl;
      (split; [apply Map_has_true; rewrite Map_get_set_eq; eauto | done]).
Qed.

(** ** Teardown *)

Lemma existsb_is_send_RemoveItem (keys : list string) :
  existsb is_send (map RemoveItem keys) = false.
Proof. induction keys; simpl; auto. Qed.

(** C1, what the code does. [destroy] raises the [destroyed] flag
    before it calls [broadcast], and [broadcast] returns at once on a
    destroyed instance: the final [playerLeft] is never put on either
    transport, and nothing [destroy] does is a send. *)
Theorem destroy_sends_nothing env st :
  broadcast env (PlayerLeft (peerId st)) (with_destroyed true st) = []
  /\ existsb is_send (snd (destroy env st)) = false.
Proof.
  split; [done|].
  unfold destroy. simpl.
  repeat (rewrite existsb_app; simpl).
  destruct (bcChannel st), (storageHandler st), (localStorage env); simpl;
    auto using existsb_is_send_RemoveItem.
Qed.

(** ** The liveness pass *)

Lemma filter_ext_elem {A} (P Q : A -> Prop)
    `{forall x, Decision (P x)} `{forall x, Decision (Q x)} (l : list A) :
  (forall x, x ∈ l -> P x <-> Q x) -> filter P l = filter Q l.
Proof.
  induction l as [|a l IH]; intros Hext; [done|].
  rewrite !filter_cons.
  assert (Ha : P a <-> Q a) by (apply Hext, list_elem_of_here).
  rewrite IH by (intros x Hx; apply Hext, list_elem_of_further, Hx).
  destruct (decide (P a)) as [HP|HP], (decide (Q a)) as [HQ|HQ]; try done;
    exfalso; [apply HQ, Ha, HP | apply HP, Ha, HQ].
Qed.

Lemma departures_cons now id player rest :
  departures now ((id, player) :: rest) =
    (if stale now player
     then [OnStatusChange (status_timed_out (info_name player));
           OnMessage (PlayerLeft id)]
     else []) ++ departures now rest.
Proof. done. Qed.

Lemma cleanup_forEach_spec now entries :
  forall reg changed,
    NoDup (Map_keys reg) ->
    cleanup_forEach now entries reg changed =
      (filter (fun kv => fst kv ∉ Map_keys (evicted now entries)) reg,
       departures now entries,
       match evicted now entries with [] => changed | _ :: _ => true end).
Proof.
  induction entries as [|[id player] rest IH]; intros reg changed Hnd.
  - simpl. rewrite filter_all; [done|].
    apply Forall_forall. intros kv _. apply not_elem_of_nil.
  - cbn [cleanup_forEach]. rewrite departures_cons. unfold evicted in *.
    rewrite filter_cons. cbn [snd].
    destruct (stale now player) eqn:Hstale.
    + rewrite decide_True by done.
      rewrite IH by (by apply Map_delete_NoDup).
      rewrite Map_delete_filter by done.
      rewrite list_filter_filter. f_equal; [f_equal|].
      * apply list_filter_iff. intros [k v]. unfold Map_keys.
        rewrite fmap_cons, not_elem_of_cons. simpl.
        split; intros [? ?]; by split.
      * by destruct (filter _ rest).
    + rewrite decide_False by done. by rewrite IH.
Qed.

Lemma evicted_keys_stale now reg k v :
  NoDup (Map_keys reg) ->
  (k, v) ∈ reg ->
  k ∉ Map_keys (evicted now reg) <-> stale now v = false.
Proof.
  intros Hnd Hin. unfold Map_keys, evicted. split.
  - intros Hnot. destruct (stale now v) eqn:Hs; [|done].
    exfalso. apply Hnot. apply list_elem_of_fmap. exists (k, v).
    split; [done|]. by apply list_elem_of_filter.
  - intros Hs Hk. apply list_elem_of_fmap in Hk as ([k' v'] & Hkk & Hin').
    simpl in Hkk. subst k'.
    apply list_elem_of_filter in Hin' as [Hs' Hin']. simpl in Hs'.
    apply Map_elem_get in Hin, Hin'; try done. congruence.
Qed.

Lemma statuses_departures now entries :
  statuses (departures now entries) =
    (fun kv => status_timed_out (info_name (snd kv))) <$> evicted now entries.
Proof.
  unfold evicted. induction entries as [|[id player] rest IH]; [done|].
  rewrite departures_cons, filter_cons. cbn [snd].
  unfold statuses in *. rewrite flat_map_app, IH.
  by destruct (stale now player).
Qed.

Lemma messages_departures now entries :
  messages (departures now entries) =
    (fun kv => PlayerLeft (fst kv)) <$> evicted now entries.
Proof.
  unfold evicted. induction entries as [|[id player] rest IH]; [done|].
  rewrite departures_cons, filter_cons. cbn [snd].
  unfold messages in *. rewrite flat_map_app, IH.
  by destruct (stale now player).
Qed.

Lemma departures_no_membership now entries :
  connection_counts (departures now entries) = []
  /\ player_lists (departures now entries) = [].
Proof.
  induction entries as [|[id player] rest [IH1 IH2]]; [done|].
  rewrite departures_cons. unfold connection_counts, player_lists in *.
  rewrite !flat_map_app, IH1, IH2. by destruct (stale now player).
Qed.

Lemma cleanupInterval_tick_spec now st :
  destroyed st = false ->
  NoDup (Map_keys (remotePlayers st)) ->
  cleanupInterval_tick now st =
    (with_remotePlayers (retained now (remotePlayers st)) st,
     departures now (remotePlayers st)
     ++ match evicted now (remotePlayers st) with
        | [] => []
        | _ :: _ =>
            notifyConnectionChange
              (with_remotePlayers (retained now (remotePlayers st)) st)
        end).
Proof.
  intros Hlive Hnd. unfold cleanupInterval_tick. rewrite Hlive.
  rewrite cleanup_forEach_spec by done.
  assert (Hreg : filter (fun kv => fst kv ∉ Map_keys (evicted now (remotePlayers st)))
                   (remotePlayers st) = retained now (remotePlayers st)).
  { apply filter_ext_elem. intros [k v] Hin. by apply evicted_keys_stale. }
  rewrite Hreg. by destruct (evicted now (remotePlayers st)).
Qed.

(** C4. One pass of the liveness driver on a live instance removes
    exactly the peers whose [lastSeen] is more than 3000 ms old and
    keeps the others; it fires one departure status and one
    [playerLeft] message per evicted peer, in registry order; and it
    notifies the connection count and the player list once, for the
    registry after the pass, when at least one peer was evicted and
    not at all otherwise. *)
Theorem liveness_pass_evicts_stale now st :
  destroyed st = false ->
  NoDup (Map_keys (remotePlayers st)) ->
  let st' := fst (cleanupInterval_tick now st) in
  let effs := snd (cleanupInterval_tick now st) in
  let gone := evicted now (remotePlayers st) in
  remotePlayers st' = retained now (remotePlayers st)
  /\ statuses effs = (fun kv => status_timed_out (info_name (snd kv))) <$> gone
  /\ messages effs = (fun kv => PlayerLeft (fst kv)) <$> gone
  /\ match gone with
     | [] => membership_silent effs
     | _ :: _ => membership_notified st' effs
     end.
Proof.
  intros Hlive Hnd. rewrite cleanupInterval_tick_spec by done. simpl.
  pose proof (departures_no_membership now (remotePlayers st)) as [Hc Hl].
  unfold statuses, messages, membership_silent, membership_notified,
    connection_counts, player_lists in *.
  rewrite !flat_map_app, Hc, Hl.
  fold (statuses (departures now (remotePlayers st))).
  fold (messages (departures now (remotePlayers st))).
  rewrite statuses_departures, messages_departures.
  destruct (evicted now (remotePlayers st)); simpl; rewrite ?app_nil_r; done.
Qed.

(** Right after a liveness pass at time [now] every registry entry is
    inside the 3000 ms window: a peer has an entry after the pass
    exactly when it had that entry before the pass and its [lastSeen]
    is at most 3000 ms old. *)
Lemma cleanupInterval_tick_window now st :
  destroyed st = false ->
  NoDup (Map_keys (remotePlayers st)) ->
  let st' := fst (cleanupInterval_tick now st) in
  within_window now (remotePlayers st')
  /\ forall id player,
       Map_get id (remotePlayers st') = Some player
       <-> Map_get id (remotePlayers st) = Some player
           /\ (now - info_lastSeen player <= 3000)%Z.
Proof.
  intros Hlive Hnd. rewrite cleanupInterval_tick_spec by done. simpl.
  assert (Hiff : forall id player,
             Map_get id (retained now (remotePlayers st)) = Some player
             <-> Map_get id (remotePlayers st) = Some player
                 /\ (now - info_lastSeen player <= 3000)%Z).
  { intros id player. unfold retained. rewrite Map_get_filter by done.
    unfold stale. simpl. rewrite bool_decide_eq_false.
    split; (intros [? ?]; split; [done | lia]). }
  split; [|done].
  intros id player Hget. by apply Hiff in Hget as [_ ?].
Qed.

(** ** The membership hooks *)

Lemma announced_weaken b effs :
  list_change_announced false effs -> list_change_announced b effs.
Proof. destruct effs as [|[] effs]; simpl; try done. by intros [? _]. Qed.

Lemma paired_quiet_app reg a b :
  forallb quiet a = true ->
  membership_paired reg b -> membership_paired reg (a ++ b).
Proof.
  induction a as [|e a IH]; [done|]. simpl.
  intros [He Ha]%andb_prop Hb. destruct e; try done; simpl; auto.
Qed.

Lemma announced_quiet_app b0 a b :
  forallb quiet a = true ->
  list_change_announced false b -> list_change_announced b0 (a ++ b).
Proof.
  revert b0. induction a as [|e a IH]; intros b0.
  - intros _. apply announced_weaken.
  - simpl. intros [He Ha]%andb_prop Hb. destruct e; try done; simpl; auto.
Qed.

Lemma notifyConnectionChange_paired st tail :
  forallb quiet tail = true ->
  membership_paired (remotePlayers st) (notifyConnectionChange st ++ tail)
  /\ list_change_announced false (notifyConnectionChange st ++ tail).
Proof.
  intros Hq. simpl. unfold Map_size, Map_values. rewrite length_fmap.
  split_and!; try done.
  - rewrite <- (app_nil_r tail). by apply paired_quiet_app.
  - rewrite <- (app_nil_r tail). by apply announced_quiet_app.
Qed.

Lemma quiet_paired reg effs :
  forallb quiet effs = true ->
  membership_paired reg effs /\ list_change_announced false effs.
Proof.
  intros Hq. rewrite <- (app_nil_r effs).
  split; [by apply paired_quiet_app | by apply announced_quiet_app].
Qed.

Lemma departures_quiet now entries :
  forallb quiet (departures now entries) = true.
Proof.
  induction entries as [|[id player] rest IH]; [done|].
  rewrite departures_cons, forallb_app, IH.
  by destruct (stale now player).
Qed.

Lemma broadcast_quiet env msg st : forallb quiet (broadcast env msg st) = true.
Proof.
  unfold broadcast.
  destruct (destroyed st); [done|].
  by destruct (bcChannel st) as [[]|], (localStorage env).
Qed.

Lemma handleIncomingMessage_paired now msg st :
  membership_paired (remotePlayers (fst (handleIncomingMessage now msg st)))
                    (snd (handleIncomingMessage now msg st))
  /\ list_change_announced false (snd (handleIncomingMessage now msg st)).
Proof.
  unfold handleIncomingMessage, handlePresence.
  destruct (decide _); [done|].
  destruct msg as [player peer|level peer|peer name color|peer|level peer
                  |peer name color]; simpl; try done.
  - destruct (Map_get peer (remotePlayers st)); [done|]. simpl.
    unfold Map_size, Map_values. rewrite length_fmap. done.
  - destruct (Map_has peer (remotePlayers st)); [done|]. simpl.
    unfold Map_size, Map_values. rewrite length_fmap. done.
  - destruct (Map_get peer (remotePlayers st)); simpl;
      unfold Map_size, Map_values; rewrite length_fmap; done.
  - destruct (Map_has peer (remotePlayers st)); [done|]. simpl.
    unfold Map_size, Map_values. rewrite length_fmap. done.
Qed.

Lemma cleanup_forEach_effects now entries :
  forall reg changed,
    snd (fst (cleanup_forEach now entries reg changed)) = departures now entries.
Proof.
  induction entries as [|[id player] rest IH]; intros reg changed; [done|].
  cbn [cleanup_forEach]. rewrite departures_cons.
  destruct (stale now player); [|apply IH].
  specialize (IH (Map_delete id reg) true).
  destruct (cleanup_forEach now rest (Map_delete id reg) true) as [[reg' effs] ch].
  simpl in *. by rewrite IH.
Qed.

Lemma cleanupInterval_tick_paired now st :
  membership_paired (remotePlayers (fst (cleanupInterval_tick now st)))
                    (snd (cleanupInterval_tick now st))
  /\ list_change_announced false (snd (cleanupInterval_tick now st)).
Proof.
  unfold cleanupInterval_tick. destruct (destroyed st); [done|].
  pose proof (cleanup_forEach_effects now (remotePlayers st)
                (remotePlayers st) false) as Heffs.
  destruct (cleanup_forEach now (remotePlayers st) (remotePlayers st) false)
    as [[reg effs] changed].
  simpl in Heffs. subst effs. simpl fst. simpl snd.
  pose proof (departures_quiet now (remotePlayers st)) as Hq.
  destruct changed.
  - pose proof (notifyConnectionChange_paired (with_remotePlayers reg st) [])
      as [Hp Ha]; [done|].
    rewrite app_nil_r in Hp, Ha.
    split; [by apply paired_quiet_app | by apply announced_quiet_app].
  - rewrite app_nil_r. by apply quiet_paired.
Qed.

Lemma destroy_quiet env st : forallb quiet (snd (destroy env st)) = true.
Proof.
  unfold destroy. simpl. rewrite !forallb_app.
  assert (Hrm : forall keys, forallb quiet (map RemoveItem keys) = true)
    by (induction keys; simpl; auto).
  destruct (bcChannel st), (storageHandler st), (localStorage env); simpl;
    rewrite ?Hrm; done.
Qed.

(** C10. The connection count always equals the length of the player
    list. Whatever body runs on the instance, each
    [onConnectionChange] it fires is followed at once by an
    [onPlayerListChange], no [onPlayerListChange] fires without that
    count before it, the count equals the length of the list, and both
    are the size and the values of the registry as the body leaves
    it. *)
Theorem membership_hooks_agree env i st :
  getConnectedCount st = length (getPlayerList st)
  /\ membership_paired (remotePlayers (fst (step env i st))) (snd (step env i st))
  /\ list_change_announced false (snd (step env i st)).
Proof.
  split.
  { unfold getConnectedCount, getPlayerList, Map_size, Map_values.
    by rewrite length_fmap. }
  destruct i as [data|e|task|player|level|level|]; simpl.
  - unfold bcChannel_onmessage.
    destruct (destroyed st); [done|].
    destruct (deduplicate data st); [|done].
    apply handleIncomingMessage_paired.
  - unfold storageHandler_call.
    repeat case_match; try done; apply handleIncomingMessage_paired.
  - destruct task; simpl.
    + by destruct (destroyed st).
    + unfold heartbeatInterval_tick. destruct (destroyed st); [done|].
      apply quiet_paired, broadcast_quiet.
    + apply cleanupInterval_tick_paired.
    + unfold announceJoin. destruct (destroyed st); [done|].
      apply quiet_paired, broadcast_quiet.
    + by destruct (localStorage env).
  - apply quiet_paired, broadcast_quiet.
  - apply quiet_paired, broadcast_quiet.
  - apply quiet_paired, broadcast_quiet.
  - apply quiet_paired, destroy_quiet.
Qed.

(** ** The deduplicator *)

Lemma slice_last_snoc {A} (n : nat) (l : list A) (x : A) :
  0 < n -> slice_last n (l ++ [x]) = slice_last (n - 1) l ++ [x].
Proof.
  intros Hn. unfold slice_last. rewrite length_app. simpl.
  rewrite drop_app_le by lia. f_equal. f_equal. lia.
Qed.

Lemma length_slice_last {A} (n : nat) (l : list A) :
  length (slice_last n l) = Nat.min n (length l).
Proof. unfold slice_last. rewrite length_drop. lia. Qed.

Lemma Set_has_true x s : Set_has x s = true <-> x ∈ s.
Proof. apply bool_decide_eq_true. Qed.

Lemma Set_has_false x s : Set_has x s = false <-> x ∉ s.
Proof. apply bool_decide_eq_false. Qed.

(** The set after a fresh id went in: appended, then cut back to the
    last 100 when that made more than 200. *)
Lemma deduplicate_fresh data msgId st :
  wire_msgId data = Some msgId ->
  truthy msgId = true ->
  Set_has msgId (seenMessageIds st) = false ->
  deduplicate data st =
    Some (with_seenMessageIds
            (if bool_decide (200 < length (seenMessageIds st ++ [msgId]))
             then slice_last 100 (seenMessageIds st ++ [msgId])
             else seenMessageIds st ++ [msgId]) st).
Proof.
  intros Hid Ht Hhas. unfold deduplicate, Set_add. by rewrite Hid, Ht, Hhas.
Qed.

Lemma deduplicate_seen data msgId st :
  wire_msgId data = Some msgId ->
  truthy msgId = true ->
  Set_has msgId (seenMessageIds st) = true ->
  deduplicate data st = None.
Proof. intros Hid Ht Hhas. unfold deduplicate. by rewrite Hid, Ht, Hhas. Qed.

Lemma deduplicate_cases data st :
  deduplicate data st = None
  \/ deduplicate data st = Some st
  \/ exists msgId,
       Set_has msgId (seenMessageIds st) = false
       /\ deduplicate data st =
            Some (with_seenMessageIds
                    (if bool_decide (200 < length (seenMessageIds st ++ [msgId]))
                     then slice_last 100 (seenMessageIds st ++ [msgId])
                     else seenMessageIds st ++ [msgId]) st).
Proof.
  destruct (wire_msgId data) as [msgId|] eqn:Hid;
    [|right; left; unfold deduplicate; by rewrite Hid].
  destruct (truthy msgId) eqn:Ht;
    [|right; left; unfold deduplicate; by rewrite Hid, Ht].
  destruct (Set_has msgId (seenMessageIds st)) eqn:Hhas.
  - left. by eapply deduplicate_seen.
  - right; right. exists msgId. split; [done|]. by apply deduplicate_fresh.
Qed.

Lemma step_carries env i data st :
  destroyed st = false ->
  carries st i data ->
  step env i st =
    match deduplicate data st with
    | None => (st, [])
    | Some st' => handleIncomingMessage (date_now env) (wire_msg data) st'
    end.
Proof.
  intros Hlive Hc. destruct i as [d|e| | | | |]; simpl in Hc; try done.
  - subst d. simpl. unfold bcChannel_onmessage. by rewrite Hlive.
  - destruct Hc as (key & value & from & -> & Hkey & Hval & Hparse & Hfrom).
    simpl. unfold storageHandler_call. rewrite Hlive. simpl.
    unfold room_key in Hkey. apply andb_prop in Hkey as [Hk1 Hk2].
    rewrite Hk1, Hk2, Hval, Hparse. simpl. by rewrite decide_False.
Qed.

Lemma carries_frame st st' i data :
  peerId st' = peerId st -> roomId st' = roomId st ->
  carries st i data -> carries st' i data.
Proof.
  intros Hp Hr. destruct i; simpl; try done.
  unfold room_key, room_prefix. rewrite Hp, Hr. done.
Qed.

(** An accepted message is one the dispatcher runs on, past its self
    filter; a delivery that gets nothing accepted leaves the registry
    alone and fires nothing. *)
Lemma accepted_dispatched env i msg st :
  accepted i st = Some msg ->
  msg_peerId msg <> peerId st
  /\ exists st0,
       remotePlayers st0 = remotePlayers st
       /\ peerId st0 = peerId st
       /\ step env i st = handleIncomingMessage (date_now env) msg st0.
Proof.
  unfold accepted. destruct (destroyed st) eqn:Hlive; [done|].
  assert (Hd : forall data,
             match deduplicate data st with
             | Some _ =>
                 if decide (msg_peerId (wire_msg data) = peerId st) then None
                 else Some (wire_msg data)
             | None => None
             end = Some msg ->
             msg_peerId msg <> peerId st
             /\ exists st0,
                  remotePlayers st0 = remotePlayers st
                  /\ peerId st0 = peerId st
                  /\ match deduplicate data st with
                     | None => (st, [])
                     | Some st' =>
                         handleIncomingMessage (date_now env) (wire_msg data) st'
                     end = handleIncomingMessage (date_now env) msg st0).
  { intros data. destruct (deduplicate data st) as [st0|] eqn:Hdd; [|done].
    destruct (decide _) as [|Hne]; [done|]. intros [= <-].
    apply deduplicate_frame in Hdd as (Hp & _ & _ & Hr).
    split; [done|]. by exists st0. }
  destruct i as [data|e| | | | |]; try done.
  - intros Hacc. simpl. unfold bcChannel_onmessage. rewrite Hlive. by apply Hd.
  - destruct (ev_key e) as [key|] eqn:Hk; [|done].
    destruct (ev_newValue e) as [value|] eqn:Hv; [|done].
    destruct (room_key st key && truthy value) eqn:Hchecks; [|done].
    apply andb_prop in Hchecks as [[Hk1 Hk2]%andb_prop Hval].
    destruct (JSON_parse value) as [wrapper|] eqn:Hparse; [|done].
    destruct (decide (wrapper_from wrapper = peerId st)) as [|Hfrom]; [done|].
    intros Hacc. simpl. unfold storageHandler_call.
    rewrite Hlive, Hk, Hv, Hk1, Hk2, Hval, Hparse. simpl.
    rewrite decide_False by done. by apply Hd.
Qed.

Lemma not_accepted_ignored env i st :
  accepted i st = None ->
  (exists data, i = BcDelivery data) \/ (exists e, i = StorageDelivery e) ->
  remotePlayers (fst (step env i st)) = remotePlayers st
  /\ snd (step env i st) = [].
Proof.
  unfold accepted. intros Hacc Hdel.
  destruct (destroyed st) eqn:Hlive.
  { destruct Hdel as [[data ->]|[e ->]]; simpl.
    - unfold bcChannel_onmessage. by rewrite Hlive.
    - unfold storageHandler_call. by rewrite Hlive. }
  assert (Hd : forall data,
             match deduplicate data st with
             | Some _ =>
                 if decide (msg_peerId (wire_msg data) = peerId st) then None
                 else Some (wire_msg data)
             | None => None
             end = None ->
             let r := match deduplicate data st with
                      | None => (st, [])
                      | Some st' =>
                          handleIncomingMessage (date_now env) (wire_msg data) st'
                      end in
             remotePlayers (fst r) = remotePlayers st /\ snd r = []).
  { intros data. destruct (deduplicate data st) as [st0|] eqn:Hdd; [|done].
    destruct (decide _) as [Heq|]; [|done]. intros _.
    apply deduplicate_frame in Hdd as (Hp & _ & _ & Hr). simpl.
    rewrite handleIncomingMessage_self by congruence. simpl. by rewrite Hr. }
  destruct Hdel as [[data ->]|[e ->]]; simpl.
  - unfold bcChannel_onmessage. rewrite Hlive. by apply Hd.
  - unfold storageHandler_call. rewrite Hlive.
    destruct (ev_key e) as [key|]; [|done].
    unfold room_key in Hacc.
    destruct (truthy key); [|done].
    destruct (String.prefix (room_prefix st) key); [|done]. simpl in *.
    destruct (ev_newValue e) as [value|]; [|done].
    destruct (truthy value); [|done]. simpl in *.
    destruct (JSON_parse value) as [wrapper|]; [|done].
    destruct (decide _); [done|]. by apply Hd.
Qed.

(** C5. Take a live instance and a wire message with a (non-empty)
    message id, delivered by [i] and again by [i'], each through either
    transport. If the id is not in the seen set the first delivery is
    dispatched (with the id now remembered) and the id is in the set
    afterwards; if the id is already in the set the delivery is dropped:
    the instance is unchanged and nothing fires. In both cases the
    second delivery is dropped in the same way. *)
Theorem duplicate_delivery_dropped env env' i i' data msgId st :
  destroyed st = false ->
  wire_msgId data = Some msgId ->
  truthy msgId = true ->
  carries st i data ->
  carries st i' data ->
  let st1 := fst (step env i st) in
  (if Set_has msgId (seenMessageIds st)
   then step env i st = (st, [])
   else exists st0,
          deduplicate data st = Some st0
          /\ remotePlayers st0 = remotePlayers st
          /\ step env i st = handleIncomingMessage (date_now env) (wire_msg data) st0)
  /\ Set_has msgId (seenMessageIds st1) = true
  /\ step env' i' st1 = (st1, []).
Proof.
  intros Hlive Hid Ht Hc Hc'. simpl.
  rewrite (step_carries env i data st) by done.
  destruct (Set_has msgId (seenMessageIds st)) eqn:Hhas.
  - rewrite (deduplicate_seen data msgId st) by done. simpl.
    split_and!; [done|done|].
    rewrite (step_carries env' i' data st) by done.
    by rewrite (deduplicate_seen data msgId st).
  - rewrite (deduplicate_fresh data msgId st) by done.
    set (st0 := with_seenMessageIds _ st).
    pose proof (handleIncomingMessage_frame (date_now env) (wire_msg data) st0)
      as (Hp & Hr & Hd & Hs).
    simpl in Hp, Hr, Hd, Hs.
    assert (Hin : Set_has msgId (seenMessageIds st0) = true).
    { apply Set_has_true. subst st0. simpl. case_bool_decide.
      - rewrite slice_last_snoc by lia. apply elem_of_app. right.
        apply list_elem_of_here.
      - apply elem_of_app. right. apply list_elem_of_here. }
    split_and!.
    + by exists st0.
    + by rewrite Hs.
    + rewrite (step_carries env' i' data).
      * rewrite (deduplicate_seen data msgId); [done|done|done|].
        by rewrite Hs.
      * by rewrite Hd.
      * by apply (carries_frame st).
Qed.

(** ** Invariants of the running instance *)

Lemma deduplicate_bound data st st' :
  length (seenMessageIds st) <= 200 ->
  deduplicate data st = Some st' ->
  length (seenMessageIds st') <= 200.
Proof.
  intros Hlen Hd.
  destruct (deduplicate_cases data st) as [Hn|[Hs|(msgId & _ & Hs)]];
    rewrite Hd in *; simplify_eq; [done|]. simpl.
  case_bool_decide.
  - rewrite length_slice_last. lia.
  - lia.
Qed.

Lemma handleIncomingMessage_NoDup now msg st :
  NoDup (Map_keys (remotePlayers st)) ->
  NoDup (Map_keys (remotePlayers (fst (handleIncomingMessage now msg st)))).
Proof.
  intros Hnd. unfold handleIncomingMessage, handlePresence.
  destruct (decide _); [done|].
  destruct msg; simpl; repeat case_match; simpl;
    auto using Map_set_NoDup, Map_delete_NoDup.
Qed.

(** A storage event is either ignored or handed, like a broadcast
    channel event, to the deduplicator and then the dispatcher. *)
Lemma storageHandler_call_cases now e st :
  storageHandler_call now e st = (st, [])
  \/ (destroyed st = false
      /\ exists data,
           storageHandler_call now e st =
             match deduplicate data st with
             | None => (st, [])
             | Some st' => handleIncomingMessage now (wire_msg data) st'
             end).
Proof.
  unfold storageHandler_call.
  destruct (destroyed st); [by left|].
  destruct (ev_key e) as [key|]; [|by left].
  destruct (negb _ || negb _); [by left|].
  destruct (ev_newValue e) as [value|]; [|by left].
  destruct (negb (truthy value)); [by left|].
  destruct (JSON_parse value) as [wrapper|]; [|by left].
  destruct (decide _); [by left|].
  right. split; [done|]. by exists (wrapper_data wrapper).
Qed.

Lemma inbound_well_formed now data st :
  well_formed st ->
  destroyed st = false ->
  well_formed
    (fst (match deduplicate data st with
          | None => (st, [])
          | Some st' => handleIncomingMessage now (wire_msg data) st'
          end)).
Proof.
  intros (Hnd & Hlen & Hgone) Hlive.
  destruct (deduplicate data st) as [st'|] eqn:Hd; [|done].
  pose proof (deduplicate_bound _ _ _ Hlen Hd) as Hlen'.
  apply deduplicate_frame in Hd as (_ & _ & Hd & Hr).
  pose proof (handleIncomingMessage_frame now (wire_msg data) st')
    as (_ & _ & Hd' & Hs').
  simpl in Hd', Hs'. split_and!.
  - apply handleIncomingMessage_NoDup. by rewrite Hr.
  - by rewrite Hs'.
  - rewrite Hd', Hd, Hlive. done.
Qed.

Lemma step_well_formed env i st :
  well_formed st -> well_formed (fst (step env i st)).
Proof.
  intros Hwf. destruct i as [data|e|task|player|level|level|]; simpl; try done.
  - unfold bcChannel_onmessage. destruct (destroyed st) eqn:Hlive; [done|].
    by apply inbound_well_formed.
  - destruct (storageHandler_call_cases (date_now env) e st)
      as [->|(Hlive & data & ->)]; [done|].
    by apply inbound_well_formed.
  - destruct task; simpl; try done.
    destruct (destroyed st) eqn:Hlive.
    { unfold cleanupInterval_tick. by rewrite Hlive. }
    destruct Hwf as (Hnd & Hlen & Hgone).
    rewrite cleanupInterval_tick_spec by done. simpl.
    split_and!; [by apply filter_keys_NoDup | done | simpl; by rewrite Hlive].
  - destruct Hwf as (Hnd & Hlen & Hgone). unfold destroy. simpl.
    split_and!; simpl; [apply NoDup_nil_2 | | done].
    by destruct (bcChannel st).
Qed.

Lemma run_well_formed schedule :
  forall st, well_formed st -> well_formed (run schedule st).
Proof.
  induction schedule as [|[env i] rest IH]; intros st Hwf; [done|].
  simpl. by apply IH, step_well_formed.
Qed.

Lemma construct_well_formed rand36 stamp36 room name color host bc env :
  well_formed (fst (construct rand36 stamp36 room name color host bc env)).
Proof. split_and!; simpl; [apply NoDup_nil_2 | lia | done]. Qed.

Lemma run_snoc schedule env i :
  forall st, run (schedule ++ [(env, i)]) st = fst (step env i (run schedule st)).
Proof. induction schedule as [|[env0 i0] rest IH]; intros st; simpl; auto. Qed.

(** What a body can do to the deduplication set: nothing, or take in
    one id that was not there. *)
Lemma step_seen env i st :
  seenMessageIds (fst (step env i st)) = seenMessageIds st
  \/ exists msgId,
       Set_has msgId (seenMessageIds st) = false
       /\ seenMessageIds (fst (step env i st)) =
            if bool_decide (200 < length (seenMessageIds st ++ [msgId]))
            then slice_last 100 (seenMessageIds st ++ [msgId])
            else seenMessageIds st ++ [msgId].
Proof.
  assert (Hin : forall now data,
             let r := match deduplicate data st with
                      | None => (st, [])
                      | Some st' => handleIncomingMessage now (wire_msg data) st'
                      end in
             seenMessageIds (fst r) = seenMessageIds st
             \/ exists msgId,
                  Set_has msgId (seenMessageIds st) = false
                  /\ seenMessageIds (fst r) =
                       if bool_decide (200 < length (seenMessageIds st ++ [msgId]))
                       then slice_last 100 (seenMessageIds st ++ [msgId])
                       else seenMessageIds st ++ [msgId]).
  { intros now data. simpl.
    destruct (deduplicate_cases data st) as [Hn|[Hs|(msgId & Hhas & Hs)]];
      rewrite ?Hn, ?Hs; [by left| |].
    - left. apply handleIncomingMessage_frame.
    - right. exists msgId. split; [done|].
      pose proof (handleIncomingMessage_frame now (wire_msg data)
                    (with_seenMessageIds
                       (if bool_decide (200 < length (seenMessageIds st ++ [msgId]))
                        then slice_last 100 (seenMessageIds st ++ [msgId])
                        else seenMessageIds st ++ [msgId]) st))
        as (_ & _ & _ & Hseen).
      simpl in Hseen. by rewrite Hseen. }
  destruct i as [data|e|task|player|level|level|]; simpl; try (by left).
  - unfold bcChannel_onmessage. destruct (destroyed st); [by left|]. apply Hin.
  - destruct (storageHandler_call_cases (date_now env) e st)
      as [->|(Hlive & data & ->)]; [by left|].
    apply Hin.
  - destruct task; simpl; try (by left).
    unfold cleanupInterval_tick. destruct (destroyed st); [by left|].
    destruct (cleanup_forEach _ _ _ _) as [[reg effs] changed]. by left.
  - left. unfold destroy. simpl. by destruct (bcChannel st).
Qed.

(** C6. In every state the instance reaches from construction the
    deduplication set holds at most 200 ids. A body either leaves the
    set alone or takes in one id that was not in it: below 200 entries
    the id is appended; at 200 entries the append would make 201, and
    the set becomes the last 100 ids of the insertion order with the
    new id among them, so exactly 100 entries remain. *)
Theorem seenMessageIds_bounded
    rand36 stamp36 room name color host bc env0 schedule env i :
  let st := run schedule
              (fst (construct rand36 stamp36 room name color host bc env0)) in
  let st' := fst (step env i st) in
  length (seenMessageIds st) <= 200
  /\ length (seenMessageIds st') <= 200
  /\ (seenMessageIds st' = seenMessageIds st
      \/ exists msgId,
           (msgId ∉ seenMessageIds st)
           /\ (if bool_decide (length (seenMessageIds st) < 200)
               then seenMessageIds st' = seenMessageIds st ++ [msgId]
               else seenMessageIds st' = slice_last 100 (seenMessageIds st ++ [msgId])
                    /\ length (seenMessageIds st') = 100
                    /\ msgId ∈ seenMessageIds st')).
Proof.
  cbv zeta.
  set (st := run schedule _).
  assert (Hwf : well_formed st)
    by (unfold st; apply run_well_formed; apply construct_well_formed).
  pose proof (step_well_formed env i st Hwf) as (_ & Hlen' & _).
  destruct Hwf as (_ & Hlen & _).
  split_and!; [done|done|].
  destruct (step_seen env i st) as [Hsame|(msgId & Hhas & Hnew)]; [by left|].
  right. exists msgId. apply Set_has_false in Hhas. split; [done|].
  rewrite Hnew, length_app. simpl.
  destruct (decide (length (seenMessageIds st) < 200)) as [Hlt|Hge].
  - rewrite (bool_decide_eq_true_2 _ Hlt).
    rewrite bool_decide_eq_false_2 by lia. done.
  - rewrite (bool_decide_eq_false_2 _ Hge).
    rewrite bool_decide_eq_true_2 by lia. split_and!; [done| |].
    + rewrite length_slice_last, length_app. cbn [length]. lia.
    + rewrite slice_last_snoc by lia. apply elem_of_app. right.
      apply list_elem_of_here.
Qed.

(** ** The registry against the messages accepted *)

Lemma step_destroyed_stays env i st :
  destroyed st = true -> destroyed (fst (step env i st)) = true.
Proof.
  intros Hdead. destruct i as [data|e|task|player|level|level|]; simpl; try done.
  - unfold bcChannel_onmessage. by rewrite Hdead.
  - unfold storageHandler_call. by rewrite Hdead.
  - destruct task; simpl; try done.
    unfold cleanupInterval_tick. by rewrite Hdead.
  - unfold destroy. simpl. by destruct (bcChannel st).
Qed.

Lemma step_live_before env i st :
  destroyed (fst (step env i st)) = false -> destroyed st = false.
Proof.
  intros Hlive. destruct (destroyed st) eqn:Hdead; [|done].
  by rewrite (step_destroyed_stays env i st Hdead) in Hlive.
Qed.

(** What the dispatcher does to the entry of one peer. *)
Lemma handleIncomingMessage_entry now msg st peer :
  msg_peerId msg <> peerId st ->
  NoDup (Map_keys (remotePlayers st)) ->
  let reg' := remotePlayers (fst (handleIncomingMessage now msg st)) in
  if decide (msg_peerId msg = peer) then
    if is_presence msg then
      exists info, Map_get peer reg' = Some info /\ info_lastSeen info = now
    else if is_playerLeft msg then Map_get peer reg' = None
    else Map_get peer reg' = Map_get peer (remotePlayers st)
  else Map_get peer reg' = Map_get peer (remotePlayers st).
Proof.
  intros Hne Hnd. cbv zeta. unfold handleIncomingMessage, handlePresence.
  rewrite (decide_False (P := msg_peerId msg = peerId st)) by done.
  destruct (decide (msg_peerId msg = peer)) as [<-|Hother].
  - destruct msg as [player p|level p|p name color|p|level p|p name color];
      simpl in *; try done.
    + destruct (Map_get p (remotePlayers st)); simpl;
        rewrite Map_get_set_eq; eauto.
    + destruct (Map_has p (remotePlayers st)); simpl;
        rewrite Map_get_set_eq; eauto.
    + by apply Map_get_delete_eq.
    + destruct (Map_has p (remotePlayers st)); simpl;
        rewrite Map_get_set_eq; eauto.
  - destruct msg as [player p|level p|p name color|p|level p|p name color];
      simpl in *; try done.
    + destruct (Map_get p (remotePlayers st)); simpl;
        by apply Map_get_set_ne.
    + destruct (Map_has p (remotePlayers st)); simpl; by apply Map_get_set_ne.
    + by apply Map_get_delete_ne.
    + destruct (Map_has p (remotePlayers st)); simpl; by apply Map_get_set_ne.
Qed.

(** What one body does to the entry of one peer. With a message
    accepted, the dispatcher decides; without, the entry stays, or it
    goes because the instance is destroyed or because the liveness pass
    finds it more than 3000 ms old. *)
Lemma step_entry env i st peer :
  well_formed st ->
  let reg' := remotePlayers (fst (step env i st)) in
  match accepted i st with
  | Some msg =>
      if decide (msg_peerId msg = peer) then
        if is_presence msg then
          exists info,
            Map_get peer reg' = Some info /\ info_lastSeen info = date_now env
        else if is_playerLeft msg then Map_get peer reg' = None
        else Map_get peer reg' = Map_get peer (remotePlayers st)
      else Map_get peer reg' = Map_get peer (remotePlayers st)
  | None =>
      Map_get peer reg' = Map_get peer (remotePlayers st)
      \/ (Map_get peer reg' = None
          /\ (destroyed (fst (step env i st)) = true
              \/ exists info,
                   Map_get peer (remotePlayers st) = Some info
                   /\ (date_now env - info_lastSeen info > 3000)%Z))
  end.
Proof.
  intros (Hnd & _ & _). simpl.
  destruct (accepted i st) as [msg|] eqn:Hacc.
  - destruct (accepted_dispatched env i msg st Hacc)
      as (Hne & st0 & Hr & Hp & ->).
    rewrite <- Hr.
    apply handleIncomingMessage_entry; [by rewrite Hp | by rewrite Hr].
  - destruct i as [data|e|task|player|level|level|]; simpl; try (by left).
    + left. f_equal.
      apply (not_accepted_ignored env (BcDelivery data) st); eauto.
    + left. f_equal.
      apply (not_accepted_ignored env (StorageDelivery e) st); eauto.
    + destruct task; simpl; try (by left).
      destruct (destroyed st) eqn:Hlive.
      { left. unfold cleanupInterval_tick. by rewrite Hlive. }
      pose proof (cleanupInterval_tick_window (date_now env) st Hlive Hnd)
        as [_ Hiff]. simpl in Hiff.
      set (reg' := remotePlayers (fst (cleanupInterval_tick (date_now env) st)))
        in *.
      destruct (Map_get peer reg') as [info'|] eqn:Hget'.
      * apply Hiff in Hget' as [Hsame _]. by left.
      * destruct (Map_get peer (remotePlayers st)) as [info|] eqn:Hget;
          [|by left].
        right. split; [done|]. right. exists info. split; [done|].
        destruct (decide (date_now env - info_lastSeen info <= 3000)%Z)
          as [Hin|Hout]; [|lia].
        assert (Hkept : Map_get peer reg' = Some info) by (by apply Hiff).
        congruence.
    + right. unfold destroy. simpl. split; [done|]. left.
      by destruct (bcChannel st).
Qed.

Lemma step_tracked peer clock heard env i st :
  well_formed st ->
  (clock <= date_now env)%Z ->
  tracked peer clock heard st ->
  tracked peer (date_now env)
    (hear peer (date_now env) (accepted i st) heard) (fst (step env i st)).
Proof.
  intros Hwf Hclock [Hentry Hgone].
  pose proof (step_entry env i st peer Hwf) as Hstep. simpl in Hstep.
  pose proof (step_live_before env i st) as Hbefore.
  assert (Hsame : Map_get peer (remotePlayers (fst (step env i st)))
                  = Map_get peer (remotePlayers st) ->
                  tracked peer (date_now env) heard (fst (step env i st))).
  { intros Heq. split.
    - intros info Hget. apply Hentry. by rewrite <- Heq.
    - intros t Ht Hlive Hnone. rewrite Heq in Hnone.
      specialize (Hgone t Ht (Hbefore Hlive) Hnone). lia. }
  unfold hear. destruct (accepted i st) as [msg|].
  - destruct (decide (msg_peerId msg = peer)); [|by apply Hsame].
    destruct (is_presence msg).
    + destruct Hstep as (info & Hget & Hseen). split.
      * intros info' Hget'. rewrite Hget in Hget'. injection Hget' as <-.
        by rewrite Hseen.
      * intros t _ _ Hnone. by rewrite Hget in Hnone.
    + destruct (is_playerLeft msg); [|by apply Hsame].
      split; [intros info Hget; by rewrite Hstep in Hget | done].
  - destruct Hstep as [Heq|[Hnone Hwhy]]; [by apply Hsame|].
    split; [intros info Hget; by rewrite Hnone in Hget|].
    intros t Ht Hlive _.
    destruct Hwhy as [Hdead|(info & Hget & Hold)]; [congruence|].
    apply Hentry in Hget. rewrite Ht in Hget. injection Hget as ->. lia.
Qed.

Lemma run_tracked peer now schedule :
  forall clock heard st,
    well_formed st ->
    Forall (fun ei => (clock <= date_now (fst ei))%Z) schedule ->
    chronological schedule now ->
    (clock <= now)%Z ->
    tracked peer clock heard st ->
    exists clock',
      (clock' <= now)%Z
      /\ tracked peer clock' (last_heard peer schedule st heard) (run schedule st).
Proof.
  induction schedule as [|[env i] rest IH];
    intros clock heard st Hwf Hafter Hchron Hnow Htr.
  - by exists clock.
  - simpl in *. destruct Hchron as (Henv & Hrest & Hchron).
    apply (IH (date_now env)); try done.
    + by apply step_well_formed.
    + apply (step_tracked peer clock); [done| |done].
      by apply (Forall_inv Hafter).
Qed.

(** An entry inside the window of a clock reading [floor] stays inside
    it, or is replaced by a fresher one, in every body that reads a
    clock at or after [floor]. *)
Lemma step_within_window floor env i st :
  well_formed st ->
  (floor <= date_now env)%Z ->
  within_window floor (remotePlayers st) ->
  within_window floor (remotePlayers (fst (step env i st))).
Proof.
  intros Hwf Hclock Hin peer info Hget.
  pose proof (step_entry env i st peer Hwf) as Hstep. simpl in Hstep.
  destruct (accepted i st) as [msg|].
  - destruct (decide (msg_peerId msg = peer));
      [|rewrite Hstep in Hget; by apply (Hin peer)].
    destruct (is_presence msg).
    + destruct Hstep as (info' & Hget' & Hseen).
      rewrite Hget in Hget'. injection Hget' as <-. lia.
    + destruct (is_playerLeft msg); rewrite Hstep in Hget;
        [done | by apply (Hin peer)].
  - destruct Hstep as [Heq|[Hnone _]]; rewrite ?Heq, ?Hnone in Hget;
      [by apply (Hin peer) | done].
Qed.

Lemma run_within_window floor schedule :
  forall st,
    well_formed st ->
    Forall (fun ei => (floor <= date_now (fst ei))%Z) schedule ->
    within_window floor (remotePlayers st) ->
    within_window floor (remotePlayers (run schedule st)).
Proof.
  induction schedule as [|[env i] rest IH]; intros st Hwf Hafter Hin; [done|].
  simpl. apply IH.
  - by apply step_well_formed.
  - by apply (Forall_inv_tail Hafter).
  - apply step_within_window; [done| |done]. by apply (Forall_inv Hafter).
Qed.

Lemma run_app before after :
  forall st, run (before ++ after) st = run after (run before st).
Proof. induction before as [|[env i] rest IH]; intros st; simpl; auto. Qed.

Lemma chronological_after before env i after now :
  chronological (before ++ (env, i) :: after) now ->
  Forall (fun ei => (date_now env <= date_now (fst ei))%Z) after.
Proof.
  induction before as [|[env0 i0] rest IH]; simpl.
  - by intros (_ & Hafter & _).
  - intros (_ & _ & Hchron). by apply IH.
Qed.

(** C8, as amended. At every point of a run from construction, with
    the clock never going back: an instance that is not destroyed
    holds an entry for every peer whose last [playerJoin], [heartbeat]
    or [playerUpdate] was accepted at most 3000 ms ago with no
    [playerLeft] of the peer accepted since, and the entry carries the
    time of that message; every entry there is carries as [lastSeen]
    the time the peer was last heard in that sense; and once the
    liveness driver has made a pass, no entry is more than 3000 ms
    older than the pass. An entry that leaves the window between two
    passes stays until the next pass: nothing removes it on access. *)
Theorem registry_follows_presence
    rand36 stamp36 room name color host bc env0 schedule now peer :
  let st0 := fst (construct rand36 stamp36 room name color host bc env0) in
  let st := run schedule st0 in
  let heard := last_heard peer schedule st0 None in
  chronological schedule now ->
  (destroyed st = false ->
   forall t,
     heard = Some t -> (now - t <= 3000)%Z ->
     exists info,
       Map_get peer (remotePlayers st) = Some info /\ info_lastSeen info = t)
  /\ (forall info,
        Map_get peer (remotePlayers st) = Some info ->
        heard = Some (info_lastSeen info))
  /\ (forall before envp after info,
        schedule = before ++ (envp, Fire CleanupTask) :: after ->
        Map_get peer (remotePlayers st) = Some info ->
        (date_now envp - info_lastSeen info <= 3000)%Z).
Proof.
  cbv zeta. set (st0 := fst (construct _ _ _ _ _ _ _ _)).
  intros Hchron.
  assert (Hwf0 : well_formed st0) by apply construct_well_formed.
  assert (Htr : exists clock,
             (clock <= now)%Z
             /\ tracked peer clock (last_heard peer schedule st0 None)
                  (run schedule st0)).
  { assert (Hstart : forall clock, tracked peer clock None st0) by done.
    destruct schedule as [|[env i] rest]; [by exists now|].
    apply (run_tracked peer now ((env, i) :: rest) (date_now env)); try done.
    - simpl in Hchron. destruct Hchron as (_ & Hrest & _).
      constructor; [simpl; lia | done].
    - simpl in Hchron. by destruct Hchron as (? & _ & _). }
  destruct Htr as (clock & Hclock & Hentry & Hgone).
  split_and!.
  - intros Hlive t Ht Hrecent.
    destruct (Map_get peer (remotePlayers (run schedule st0)))
      as [info|] eqn:Hget.
    + exists info. split; [done|].
      specialize (Hentry info eq_refl). rewrite Ht in Hentry.
      by injection Hentry as ->.
    + specialize (Hgone t Ht Hlive eq_refl). lia.
  - done.
  - intros before envp after info -> Hget.
    rewrite run_app in Hget. simpl in Hget.
    set (st1 := run before st0) in *.
    assert (Hwf1 : well_formed st1) by (by apply run_well_formed).
    revert Hget. apply run_within_window.
    + by apply (step_well_formed envp (Fire CleanupTask)).
    + by apply (chronological_after before envp (Fire CleanupTask) after now).
    + simpl. destruct (destroyed st1) eqn:Hlive.
      * destruct Hwf1 as (_ & _ & Hempty). unfold cleanupInterval_tick.
        rewrite Hlive. simpl. by rewrite (Hempty Hlive).
      * destruct Hwf1 as (Hnd & _ & _).
        by apply (cleanupInterval_tick_window (date_now envp) st1).
Qed.

(** * Further properties *)

(** ** Strings *)

Lemma truthy_true s : truthy s = true <-> s <> EmptyString.
Proof. apply bool_decide_eq_true. Qed.

Lemma truthy_app_l a b : truthy a = true -> truthy (a +:+ b) = true.
Proof. rewrite !truthy_true. by destruct a. Qed.

Lemma truthy_app_r a b : truthy b = true -> truthy (a +:+ b) = true.
Proof. rewrite !truthy_true. destruct a; [done|]. done. Qed.

Lemma prefix_app p s : String.prefix p (p +:+ s) = true.
Proof.
  induction p as [|c p IH]; simpl; [by destruct s|].
  by destruct (Ascii.ascii_dec c c).
Qed.

Lemma message_id_truthy env st : truthy (message_id env st) = true.
Proof. unfold message_id. by apply truthy_app_r. Qed.

Lemma storage_key_room env st : room_key st (storage_key env st) = true.
Proof.
  unfold room_key, storage_key. rewrite prefix_app, andb_true_r.
  by apply truthy_app_l.
Qed.

(** ** What goes out *)

(** [broadcast] on a live instance: the same stamped message on every
    transport that works, the key removal scheduled after the write. *)
Lemma broadcast_live env msg st :
  destroyed st = false ->
  let data := {| wire_msg := msg; wire_msgId := Some (message_id env st) |} in
  broadcast env msg st =
    match bcChannel st with
    | Some ChannelOpen => [PostMessage data]
    | _ => []
    end
    ++ match localStorage env with
       | Some _ =>
           [SetItem (storage_key env st)
              {| wrapper_from := peerId st; wrapper_data := data |};
            SetTimeout (RemoveItemTask (storage_key env st)) 600]
       | None => []
       end.
Proof.
  intros Hlive. unfold broadcast. rewrite Hlive.
  by destruct (bcChannel st) as [[]|], (localStorage env).
Qed.

Lemma broadcast_stamped env msg st :
  msg_peerId msg = peerId st -> Forall (stamped st) (broadcast env msg st).
Proof.
  intros Hmsg. destruct (destroyed st) eqn:Hlive.
  { unfold broadcast. rewrite Hlive. constructor. }
  rewrite broadcast_live by done.
  pose proof (message_id_truthy env st) as Hid.
  pose proof (storage_key_room env st) as Hkey.
  apply Forall_app. split.
  - destruct (bcChannel st) as [[]|]; repeat constructor; done.
  - destruct (localStorage env); repeat constructor; done.
Qed.

Lemma handleIncomingMessage_no_send now msg st :
  Forall (stamped st) (snd (handleIncomingMessage now msg st)).
Proof.
  unfold handleIncomingMessage, handlePresence.
  destruct (decide _); [constructor|].
  destruct msg; simpl; repeat case_match; simpl; repeat constructor.
Qed.

Lemma Forall_stamped_frame st st' effs :
  peerId st' = peerId st -> roomId st' = roomId st ->
  Forall (stamped st') effs -> Forall (stamped st) effs.
Proof.
  intros Hp Hr Hall. eapply Forall_impl; [exact Hall|]. intros e.
  destruct e; simpl; try done;
    unfold room_key, room_prefix; rewrite ?Hp, ?Hr; done.
Qed.

Lemma departures_stamped st now entries :
  Forall (stamped st) (departures now entries).
Proof.
  induction entries as [|[id player] rest IH]; [constructor|].
  rewrite departures_cons. apply Forall_app. split; [|done].
  destruct (stale now player); repeat constructor.
Qed.

Lemma step_effects_stamped env i st :
  Forall (stamped st) (snd (step env i st)).
Proof.
  destruct i as [data|e|task|player|level|level|]; simpl.
  - unfold bcChannel_onmessage. destruct (destroyed st); [constructor|].
    destruct (deduplicate data st) as [st'|] eqn:Hd; [|constructor].
    apply deduplicate_frame in Hd as (Hp & Hr & _).
    apply (Forall_stamped_frame st st'); [done|done|].
    apply handleIncomingMessage_no_send.
  - destruct (storageHandler_call_cases (date_now env) e st)
      as [->|(Hlive & data & ->)]; [constructor|].
    destruct (deduplicate data st) as [st'|] eqn:Hd; [|constructor].
    apply deduplicate_frame in Hd as (Hp & Hr & _).
    apply (Forall_stamped_frame st st'); [done|done|].
    apply handleIncomingMessage_no_send.
  - destruct task; simpl.
    + destruct (destroyed st); repeat constructor.
    + unfold heartbeatInterval_tick. destruct (destroyed st); [constructor|].
      by apply broadcast_stamped.
    + unfold cleanupInterval_tick. destruct (destroyed st); [constructor|].
      pose proof (cleanup_forEach_effects (date_now env)
                    (remotePlayers st) (remotePlayers st) false) as Heffs.
      destruct (cleanup_forEach _ _ _ _) as [[reg effs] changed].
      simpl in Heffs. subst effs. simpl. apply Forall_app. split.
      * apply departures_stamped.
      * destruct changed; repeat constructor.
    + unfold announceJoin. destruct (destroyed st); [constructor|].
      by apply broadcast_stamped.
    + destruct (localStorage env); repeat constructor.
  - by apply broadcast_stamped.
  - by apply broadcast_stamped.
  - by apply broadcast_stamped.
  - unfold destroy. simpl.
    assert (Hrm : forall keys, Forall (stamped st) (map RemoveItem keys))
      by (induction keys; simpl; repeat constructor; done).
    do 2 (constructor; [done|]).
    apply Forall_app. split; [destruct (bcChannel st); repeat constructor|].
    apply Forall_app. split; [destruct (storageHandler st); repeat constructor|].
    destruct (localStorage env); [apply Hrm | constructor].
Qed.

(** No body changes who the instance is or which room it is in. *)
Lemma step_identity env i st :
  peerId (fst (step env i st)) = peerId st
  /\ roomId (fst (step env i st)) = roomId st.
Proof.
  assert (Hin : forall now data,
             let r := match deduplicate data st with
                      | None => (st, [])
                      | Some st' => handleIncomingMessage now (wire_msg data) st'
                      end in
             peerId (fst r) = peerId st /\ roomId (fst r) = roomId st).
  { intros now data. simpl.
    destruct (deduplicate data st) as [st'|] eqn:Hd; [|done].
    apply deduplicate_frame in Hd as (Hp & Hr & _).
    pose proof (handleIncomingMessage_frame now (wire_msg data) st')
      as (Hp' & Hr' & _).
    simpl in Hp', Hr'. split; congruence. }
  destruct i as [data|e|task|player|level|level|]; simpl; try done.
  - unfold bcChannel_onmessage. destruct (destroyed st); [done|]. apply Hin.
  - destruct (storageHandler_call_cases (date_now env) e st)
      as [->|(Hlive & data & ->)]; [done|]. apply Hin.
  - destruct task; simpl; try done.
    unfold cleanupInterval_tick. destruct (destroyed st); [done|].
    by destruct (cleanup_forEach _ _ _ _) as [[reg effs] changed].
  - unfold destroy. simpl. by destruct (bcChannel st).
Qed.

(** X1. In every run of an instance, every message it puts on a
    transport names the instance as its sender and carries a non-empty
    message id; a storage record also has the instance in [from] and a
    key under the prefix of the instance's room. *)
Theorem outbound_messages_stamped schedule :
  forall st, Forall (stamped st) (trace schedule st).
Proof.
  induction schedule as [|[env i] rest IH]; intros st; [constructor|].
  simpl. apply Forall_app. split; [apply step_effects_stamped|].
  destruct (step_identity env i st) as [Hp Hr].
  by apply (Forall_stamped_frame st (fst (step env i st))).
Qed.

Lemma own_record_dropped now key value wrapper st :
  JSON_parse value = Some wrapper ->
  wrapper_from wrapper = peerId st ->
  storageHandler_call now {| ev_key := key; ev_newValue := Some value |} st
  = (st, []).
Proof.
  intros Hparse Hfrom. unfold storageHandler_call. simpl. rewrite Hparse.
  rewrite decide_True by done. by repeat case_match.
Qed.

Lemma own_message_not_accepted data st :
  msg_peerId (wire_msg data) = peerId st ->
  accepted (BcDelivery data) st = None.
Proof.
  intros Hself. unfold accepted. rewrite decide_True by done.
  by repeat case_match.
Qed.

(** X2. An instance does not react to its own transmissions. Whatever a
    body of the instance puts on a transport, delivered back to the same
    instance at any later state, leaves the registry as it is and fires
    nothing; a storage record of its own leaves the whole instance
    unchanged. *)
Theorem own_echo_ignored env env' i st st' :
  peerId st' = peerId st ->
  Forall (echo_ignored env' st') (snd (step env i st)).
Proof.
  intros Hp.
  eapply Forall_impl; [apply (step_effects_stamped env i st)|].
  intros e.
  destruct e as [?|?|?|?|?|? ?|? ?|?|data|key w|?| |]; simpl; try done.
  - intros [Hself _].
    apply (not_accepted_ignored env' (BcDelivery data) st'); [|eauto].
    apply own_message_not_accepted. congruence.
  - intros (Hfrom & _) text Hparse.
    apply (own_record_dropped _ _ _ w); [done|congruence].
Qed.

(** ** From one instance to another *)

Lemma room_key_same_room st st' key :
  roomId st' = roomId st -> room_key st' key = room_key st key.
Proof. intros Hr. unfold room_key, room_prefix. by rewrite Hr. Qed.

(** A delivery that carries a message with an id the instance has not
    seen runs the dispatcher on it, with the id remembered. *)
Lemma step_carries_fresh env i data msgId st :
  destroyed st = false ->
  carries st i data ->
  wire_msgId data = Some msgId ->
  truthy msgId = true ->
  Set_has msgId (seenMessageIds st) = false ->
  step env i st
  = handleIncomingMessage (date_now env) (wire_msg data) (remembering msgId st).
Proof.
  intros Hlive Hc Hid Ht Hnew.
  rewrite (step_carries env i data st) by done.
  rewrite (deduplicate_fresh data msgId st) by done.
  unfold remembering, Set_add. by rewrite Hnew.
Qed.

(** X3. What a live instance broadcasts runs the dispatcher of every
    other live instance of the same room that has not yet seen the
    message id, on either transport. Delivering the channel event as
    posted, or the storage record under the key written (as any
    non-empty text that parses back to the record), makes the
    receiver's handler end as [handleIncomingMessage] ends on the
    broadcast message, with the message id taken into the receiver's
    deduplication set, and fire the same hooks. *)
Theorem broadcast_reaches_peers env env' msg sender receiver :
  destroyed sender = false ->
  destroyed receiver = false ->
  roomId receiver = roomId sender ->
  peerId sender <> peerId receiver ->
  Set_has (message_id env sender) (seenMessageIds receiver) = false ->
  Forall (delivered env' receiver msg (message_id env sender))
         (broadcast env msg sender).
Proof.
  intros Hlive Hlive' Hroom Hpeers Hnew.
  rewrite broadcast_live by done.
  pose proof (message_id_truthy env sender) as Hid.
  set (data := {| wire_msg := msg; wire_msgId := Some (message_id env sender) |}).
  apply Forall_app. split.
  - destruct (bcChannel sender) as [[]|]; repeat constructor. simpl.
    by apply (step_carries_fresh env' (BcDelivery data) data).
  - destruct (localStorage env); repeat constructor. simpl.
    intros value Hval Hparse.
    apply (step_carries_fresh env'
             (StorageDelivery {| ev_key := Some (storage_key env sender);
                                 ev_newValue := Some value |}) data);
      try done.
    exists (storage_key env sender), value, (peerId sender).
    split_and!; try done.
    rewrite (room_key_same_room sender) by done. apply storage_key_room.
Qed.

(** X4. Mutual discovery. When the join announcement of a live instance
    arrives on the broadcast channel of another live instance that does
    not know the sender yet, the receiver registers the sender under
    the sender's name and color with the arrival time, announces the
    join once, and schedules its own join announcement 50 ms later. *)
Theorem join_announcement_discovers env now sender receiver :
  destroyed sender = false ->
  destroyed receiver = false ->
  bcChannel sender = Some ChannelOpen ->
  peerId sender <> peerId receiver ->
  Set_has (message_id env sender) (seenMessageIds receiver) = false ->
  Map_has (peerId sender) (remotePlayers receiver) = false ->
  exists data,
    PostMessage data ∈ announceJoin env sender
    /\ let r := bcChannel_onmessage now data receiver in
       Map_get (peerId sender) (remotePlayers (fst r))
       = Some (mkInfo (peerId sender) (playerName sender) (playerColor sender) now)
       /\ join_notified (playerName sender) (fst r) (snd r)
       /\ SetTimeout AnnounceJoinTask 50 ∈ snd r.
Proof.
  intros Hlive Hlive' Hbc Hpeers Hnew Hunknown.
  exists {| wire_msg := PlayerJoin (peerId sender) (playerName sender)
                          (playerColor sender);
            wire_msgId := Some (message_id env sender) |}.
  split.
  - unfold announceJoin. rewrite Hlive, broadcast_live by done. rewrite Hbc.
    apply list_elem_of_here.
  - simpl. unfold bcChannel_onmessage. rewrite Hlive'.
    rewrite (deduplicate_fresh _ (message_id env sender))
      by (try done; apply message_id_truthy).
    unfold handleIncomingMessage, handlePresence. simpl.
    rewrite decide_False by done. rewrite Hunknown. simpl.
    rewrite Map_get_set_eq. split_and!; [done|done|].
    do 3 apply list_elem_of_further. apply list_elem_of_here.
Qed.

(** ** After destruction *)

Lemma destroy_torn_down env st : torn_down (fst (destroy env st)).
Proof.
  unfold destroy, torn_down. simpl.
  destruct (bcChannel st) as [c|] eqn:Hbc; simpl; rewrite ?Hbc; done.
Qed.

Lemma step_torn_down env i st :
  torn_down st ->
  fst (step env i st) = st
  /\ forallb is_teardown (snd (step env i st)) = true.
Proof.
  intros (Hdead & Hreg & Hbc).
  destruct i as [data|e|task|player|level|level|]; simpl.
  - unfold bcChannel_onmessage. by rewrite Hdead.
  - unfold storageHandler_call. by rewrite Hdead.
  - destruct task; simpl.
    + by rewrite Hdead.
    + unfold heartbeatInterval_tick. by rewrite Hdead.
    + unfold cleanupInterval_tick. by rewrite Hdead.
    + unfold announceJoin. by rewrite Hdead.
    + by destruct (localStorage env).
  - unfold sendPlayerUpdate, broadcast. by rewrite Hdead.
  - unfold sendLevelChange, broadcast. by rewrite Hdead.
  - unfold startGame, broadcast. by rewrite Hdead.
  - unfold destroy. simpl. split.
    + destruct st as [p r h pn pc reg bc sh d seen]. simpl in *. subst.
      by destruct bc as [[]|].
    + assert (Hrm : forall keys, forallb is_teardown (map RemoveItem keys) = true)
        by (induction keys; simpl; auto).
      rewrite !forallb_app.
      destruct (bcChannel st), (storageHandler st), (localStorage env); simpl;
        rewrite ?Hrm; done.
Qed.

(** X5. Destruction is terminal. Once [destroy] has run, whatever runs
    next (deliveries, timers still pending, calls from the game, even
    [destroy] again) leaves the instance exactly as [destroy] left it,
    fires no hook, sends nothing and schedules nothing: the only
    effects left are those of the teardown itself. *)
Theorem destroyed_instance_inert env st schedule :
  let dead := fst (destroy env st) in
  run schedule dead = dead
  /\ forallb is_teardown (trace schedule dead) = true.
Proof.
  cbv zeta. pose proof (destroy_torn_down env st) as Hdown.
  revert Hdown. generalize (fst (destroy env st)). intros dead Hdown.
  induction schedule as [|[env' i] rest IH]; [done|].
  destruct (step_torn_down env' i dead Hdown) as [Hsame Heffs].
  simpl. rewrite Hsame, forallb_app, Heffs. apply IH.
Qed.

(** ** Rooms on the storage transport *)

Lemma append_cons x a b : String x a +:+ b = String x (a +:+ b).
Proof. done. Qed.

Lemma append_nil_l a : EmptyString +:+ a = a.
Proof. done. Qed.

Lemma append_assoc a b c : (a +:+ b) +:+ c = a +:+ (b +:+ c).
Proof.
  induction a as [|x a IH]; [done|]. rewrite !append_cons. by f_equal.
Qed.

Lemma prefix_cons_same c a b :
  String.prefix (String c a) (String c b) = String.prefix a b.
Proof. simpl. by destruct (Ascii.ascii_dec c c). Qed.

Lemma prefix_cons_inv c c' a b :
  String.prefix (String c a) (String c' b) = true ->
  c = c' /\ String.prefix a b = true.
Proof. simpl. by destruct (Ascii.ascii_dec c c'). Qed.

Lemma has_dash_cons c s :
  has_dash (String c s) = Nat.eqb (Ascii.nat_of_ascii c) 45 || has_dash s.
Proof. done. Qed.

(** Two ids without a dash: if one followed by a dash starts the other
    followed by a dash, they are the same id. *)
Lemma prefix_dash_free r :
  forall r' rest,
    has_dash r = false ->
    has_dash r' = false ->
    String.prefix (r +:+ "-") (r' +:+ "-" +:+ rest) = true ->
    r = r'.
Proof.
  induction r as [|c r IH]; intros r' rest Hr Hr' Hpre.
  - destruct r' as [|c' r']; [done|].
    rewrite append_nil_l, append_cons in Hpre.
    apply prefix_cons_inv in Hpre as [<- _].
    by rewrite has_dash_cons in Hr'.
  - rewrite has_dash_cons in Hr. apply orb_false_elim in Hr as [Hc Hr].
    destruct r' as [|c' r'].
    + rewrite append_nil_l, !append_cons in Hpre.
      apply prefix_cons_inv in Hpre as [-> _]. done.
    + rewrite has_dash_cons in Hr'. apply orb_false_elim in Hr' as [_ Hr'].
      rewrite !append_cons in Hpre.
      apply prefix_cons_inv in Hpre as [<- Hpre].
      f_equal. by apply (IH r' rest).
Qed.

Lemma room_key_other_room env sender receiver :
  has_dash (roomId sender) = false ->
  has_dash (roomId receiver) = false ->
  roomId sender <> roomId receiver ->
  room_key receiver (storage_key env sender) = false.
Proof.
  intros Hs Hr Hne. unfold room_key.
  destruct (String.prefix (room_prefix receiver) (storage_key env sender))
    eqn:Hpre; [|apply andb_false_r].
  exfalso. apply Hne. symmetry.
  unfold storage_key, room_prefix in Hpre.
  rewrite !append_assoc, !append_cons, !append_nil_l in Hpre.
  rewrite !prefix_cons_same in Hpre.
  by apply (prefix_dash_free _ _ _ Hr Hs) in Hpre.
Qed.

Lemma foreign_key_ignored now key value st :
  room_key st key = false ->
  storageHandler_call now {| ev_key := Some key; ev_newValue := value |} st
  = (st, []).
Proof.
  unfold room_key, storageHandler_call. cbn [ev_key ev_newValue].
  intros Hkey. destruct (destroyed st); [done|].
  destruct (truthy key); [|done].
  destruct (String.prefix (room_prefix st) key); done.
Qed.

(** X6. Rooms are separate on the storage transport as long as room ids
    hold no dash. A record that an instance of one such room writes is
    ignored by an instance of a different such room: its key fails the
    room prefix test, so the listener returns before reading the
    value. *)
Theorem storage_rooms_isolated env now msg sender receiver :
  has_dash (roomId sender) = false ->
  has_dash (roomId receiver) = false ->
  roomId sender <> roomId receiver ->
  Forall (record_ignored now receiver) (broadcast env msg sender).
Proof.
  intros Hs Hr Hne.
  destruct (destroyed sender) eqn:Hlive.
  { unfold broadcast. rewrite Hlive. constructor. }
  rewrite broadcast_live by done.
  pose proof (room_key_other_room env sender receiver Hs Hr Hne) as Hkey.
  apply Forall_app. split.
  - destruct (bcChannel sender) as [[]|]; repeat constructor.
  - destruct (localStorage env); repeat constructor.
    intros value. by apply foreign_key_ignored.
Qed.

(** ** The registry across a run *)

Lemma elem_of_Map_set {V} (k0 : string) (v0 : V) (m : JsMap V) k v :
  (k, v) ∈ Map_set k0 v0 m -> (k, v) = (k0, v0) \/ (k, v) ∈ m.
Proof.
  induction m as [|[k' v'] m IH]; cbn [Map_set].
  - intros ->%list_elem_of_singleton. by left.
  - destruct (decide (k0 = k')) as [->|Hne].
    + intros [->|Hin]%elem_of_cons; [by left|].
      right. by apply list_elem_of_further.
    + intros [->|Hin]%elem_of_cons; [right; apply list_elem_of_here|].
      destruct (IH Hin) as [->|Hin']; [by left|].
      right. by apply list_elem_of_further.
Qed.

Lemma elem_of_Map_delete {V} (k0 : string) (m : JsMap V) kv :
  kv ∈ Map_delete k0 m -> kv ∈ m.
Proof.
  induction m as [|[k' v'] m IH]; cbn [Map_delete]; [done|].
  destruct (decide (k0 = k')) as [->|Hne].
  - apply list_elem_of_further.
  - intros [->|Hin]%elem_of_cons; [apply list_elem_of_here|].
    by apply list_elem_of_further, IH.
Qed.

Lemma elem_of_Map_keys {V} (m : JsMap V) k :
  k ∈ Map_keys m <-> exists v, (k, v) ∈ m.
Proof.
  unfold Map_keys. rewrite list_elem_of_fmap. split.
  - intros ([k' v] & -> & Hin). by exists v.
  - intros [v Hin]. by exists (k, v).
Qed.

Lemma registry_consistent_sub st reg :
  registry_consistent st ->
  (forall kv, kv ∈ reg -> kv ∈ remotePlayers st) ->
  registry_consistent (with_remotePlayers reg st).
Proof.
  intros [Hself Hids] Hsub. split; simpl.
  - intros [v Hin]%elem_of_Map_keys. apply Hself, elem_of_Map_keys.
    exists v. by apply Hsub.
  - intros k info Hin. by apply Hids, Hsub.
Qed.

Lemma registry_consistent_set st peer info :
  registry_consistent st ->
  peer <> peerId st ->
  info_id info = peer ->
  registry_consistent (with_remotePlayers (Map_set peer info (remotePlayers st)) st).
Proof.
  intros [Hself Hids] Hne Hid. split; simpl.
  - intros [v Hin]%elem_of_Map_keys.
    apply elem_of_Map_set in Hin as [[= ? ?]|Hin]; [congruence|].
    apply Hself, elem_of_Map_keys. by exists v.
  - intros k v Hin.
    apply elem_of_Map_set in Hin as [[= -> ->]|Hin]; [done|]. by apply Hids.
Qed.

Lemma handleIncomingMessage_consistent now msg st :
  registry_consistent st ->
  registry_consistent (fst (handleIncomingMessage now msg st)).
Proof.
  intros Hok. unfold handleIncomingMessage, handlePresence.
  destruct (decide _) as [|Hne]; [done|].
  destruct msg as [player peer|level peer|peer name color|peer|level peer
                  |peer name color]; simpl in *; try done.
  - destruct (Map_get peer (remotePlayers st)) as [existing|] eqn:Hget; simpl.
    + apply registry_consistent_set; [done|done|]. simpl.
      apply Map_get_Some_elem in Hget. by apply Hok.
    + by apply registry_consistent_set.
  - destruct (Map_has peer (remotePlayers st)); simpl;
      by apply registry_consistent_set.
  - apply registry_consistent_sub; [done|]. apply elem_of_Map_delete.
  - destruct (Map_has peer (remotePlayers st)); simpl;
      by apply registry_consistent_set.
Qed.

Lemma registry_consistent_seen st seen :
  registry_consistent st -> registry_consistent (with_seenMessageIds seen st).
Proof. done. Qed.

Lemma inbound_consistent now data st :
  registry_consistent st ->
  registry_consistent
    (fst (match deduplicate data st with
          | None => (st, [])
          | Some st' => handleIncomingMessage now (wire_msg data) st'
          end)).
Proof.
  intros Hok.
  destruct (deduplicate_cases data st) as [->|[->|(msgId & _ & ->)]]; [done| |];
    by apply handleIncomingMessage_consistent.
Qed.

Lemma step_registry_consistent env i st :
  well_formed st ->
  registry_consistent st ->
  registry_consistent (fst (step env i st)).
Proof.
  intros Hwf Hok. destruct i as [data|e|task|player|level|level|]; simpl; try done.
  - unfold bcChannel_onmessage. destruct (destroyed st); [done|].
    by apply inbound_consistent.
  - destruct (storageHandler_call_cases (date_now env) e st)
      as [->|(Hlive & data & ->)]; [done|].
    by apply inbound_consistent.
  - destruct task; simpl; try done.
    destruct (destroyed st) eqn:Hlive.
    { unfold cleanupInterval_tick. by rewrite Hlive. }
    destruct Hwf as (Hnd & _ & _).
    rewrite cleanupInterval_tick_spec by done. simpl.
    apply registry_consistent_sub; [done|].
    intros kv Hin. unfold retained in Hin.
    by apply list_elem_of_filter in Hin as [_ ?].
  - unfold destroy. simpl. split; simpl; [apply not_elem_of_nil|].
    intros k info Hin. by apply elem_of_nil in Hin.
Qed.

Lemma run_registry_consistent schedule :
  forall st,
    well_formed st -> registry_consistent st ->
    registry_consistent (run schedule st).
Proof.
  induction schedule as [|[env i] rest IH]; intros st Hwf Hok; [done|].
  simpl. apply IH; [by apply step_well_formed | by apply step_registry_consistent].
Qed.

Lemma run_identity schedule :
  forall st, peerId (run schedule st) = peerId st.
Proof.
  induction schedule as [|[env i] rest IH]; intros st; [done|].
  simpl. rewrite IH. apply step_identity.
Qed.

Lemma construct_registry_consistent rand36 stamp36 room name color host bc env :
  registry_consistent (fst (construct rand36 stamp36 room name color host bc env)).
Proof.
  split; simpl; [apply not_elem_of_nil|].
  intros k info Hin. by apply elem_of_nil in Hin.
Qed.

(** X7. An instance never lists itself. In every state reached from
    construction, no entry of the player list carries the instance's
    own peer id. *)
Theorem player_list_excludes_self
    rand36 stamp36 room name color host bc env0 schedule info :
  let st := run schedule
              (fst (construct rand36 stamp36 room name color host bc env0)) in
  info ∈ getPlayerList st -> info_id info <> peerId st.
Proof.
  cbv zeta. set (st0 := fst (construct _ _ _ _ _ _ _ _)).
  assert (Hok : registry_consistent (run schedule st0)).
  { apply run_registry_consistent;
      [apply construct_well_formed | apply construct_registry_consistent]. }
  destruct Hok as [Hself Hids].
  unfold getPlayerList, Map_values.
  intros ([k v] & -> & Hin)%list_elem_of_fmap Heq. simpl in Heq.
  apply Hself, elem_of_Map_keys. exists v.
  rewrite <- Heq. by rewrite (Hids k v Hin).
Qed.

(** X8. The player list names every peer once. In every state reached
    from construction the ids of the player list are the registry keys,
    in order, and no id occurs twice. *)
Theorem player_list_ids_distinct
    rand36 stamp36 room name color host bc env0 schedule :
  let st := run schedule
              (fst (construct rand36 stamp36 room name color host bc env0)) in
  info_id <$> getPlayerList st = Map_keys (remotePlayers st)
  /\ NoDup (info_id <$> getPlayerList st).
Proof.
  cbv zeta. set (st0 := fst (construct _ _ _ _ _ _ _ _)).
  assert (Hwf : well_formed (run schedule st0))
    by (apply run_well_formed; apply construct_well_formed).
  assert (Hok : registry_consistent (run schedule st0)).
  { apply run_registry_consistent;
      [apply construct_well_formed | apply construct_registry_consistent]. }
  destruct Hwf as (Hnd & _ & _). destruct Hok as [_ Hids].
  assert (Heq : info_id <$> getPlayerList (run schedule st0)
                = Map_keys (remotePlayers (run schedule st0))).
  { unfold getPlayerList, Map_values, Map_keys.
    revert Hids. generalize (remotePlayers (run schedule st0)).
    induction l as [|[k v] l IH]; intros Hids; [done|].
    rewrite !fmap_cons. simpl. f_equal.
    - apply Hids, list_elem_of_here.
    - apply IH. intros k' v' Hin. by apply Hids, list_elem_of_further. }
  split; [done|]. by rewrite Heq.
Qed.

(** X9. A message concerns its sender only. Whatever message the
    dispatcher handles, the registry entry of every peer other than the
    sender of the message is left exactly as it was. *)
Theorem other_peers_untouched now msg st other :
  other <> msg_peerId msg ->
  Map_get other (remotePlayers (fst (handleIncomingMessage now msg st)))
  = Map_get other (remotePlayers st).
Proof.
  intros Hne. unfold handleIncomingMessage, handlePresence.
  destruct (decide _); [done|].
  destruct msg as [player peer|level peer|peer name color|peer|level peer
                  |peer name color]; simpl in *; try done.
  - destruct (Map_get peer (remotePlayers st)); simpl;
      by apply Map_get_set_ne.
  - destruct (Map_has peer (remotePlayers st)); simpl; by apply Map_get_set_ne.
  - by apply Map_get_delete_ne.
  - destruct (Map_has peer (remotePlayers st)); simpl; by apply Map_get_set_ne.
Qed.

(** ** What reaches the hooks *)

(** X10. Which hook a delivery reaches. A delivery on either transport
    that gets a message accepted hands that message to [onMessage]
    exactly once when it is a [playerUpdate], [playerLeft] or
    [levelChange] and never otherwise, and calls [onGameStart] exactly
    once, with the level of the message, when it is a [startGame] and
    never otherwise; a delivery that gets nothing accepted has no
    effect at all. *)
Theorem delivery_hook_routing env i st :
  match i with
  | BcDelivery _ | StorageDelivery _ =>
      let effs := snd (step env i st) in
      match accepted i st with
      | Some msg =>
          messages effs = (if to_onMessage msg then [msg] else [])
          /\ game_starts effs =
               match msg with StartGame level _ => [level] | _ => [] end
      | None => effs = []
      end
  | _ => True
  end.
Proof.
  assert (Hgen : (exists data, i = BcDelivery data)
                 \/ (exists e, i = StorageDelivery e) ->
                 let effs := snd (step env i st) in
                 match accepted i st with
                 | Some msg =>
                     messages effs = (if to_onMessage msg then [msg] else [])
                     /\ game_starts effs =
                          match msg with StartGame level _ => [level] | _ => [] end
                 | None => effs = []
                 end).
  { intros Hdel. cbv zeta.
    destruct (accepted i st) as [msg|] eqn:Hacc.
    - destruct (accepted_dispatched env i msg st Hacc)
        as (Hne & st0 & Hreg & Hp & ->).
      unfold handleIncomingMessage, handlePresence.
      rewrite decide_False by congruence.
      destruct msg; simpl; repeat case_match; done.
    - by apply not_accepted_ignored. }
  destruct i; try done; apply Hgen; eauto.
Qed.

(** ** The liveness pass, again *)

Lemma nothing_stale now reg :
  Forall (fun kv => stale now (snd kv) = false) reg ->
  departures now reg = [] /\ evicted now reg = [] /\ retained now reg = reg.
Proof.
  induction 1 as [|[id player] reg Hfresh _ (IH1 & IH2 & IH3)]; [done|].
  simpl in Hfresh. unfold evicted, retained in *.
  rewrite departures_cons, IH1, Hfresh.
  rewrite filter_cons_False by (simpl; congruence).
  rewrite filter_cons_True by done. by rewrite IH2, IH3.
Qed.

Lemma retained_fresh now reg :
  Forall (fun kv => stale now (snd kv) = false) (retained now reg).
Proof.
  apply Forall_forall. intros kv Hin. unfold retained in Hin.
  by apply list_elem_of_filter in Hin as [? _].
Qed.

(** X11. The liveness pass is idempotent. Running the pass a second time
    at the same clock reading changes nothing and fires nothing. *)
Theorem liveness_pass_idempotent now st :
  destroyed st = false ->
  NoDup (Map_keys (remotePlayers st)) ->
  let st1 := fst (cleanupInterval_tick now st) in
  cleanupInterval_tick now st1 = (st1, []).
Proof.
  intros Hlive Hnd. cbv zeta.
  rewrite (cleanupInterval_tick_spec now st) by done. simpl fst.
  rewrite cleanupInterval_tick_spec;
    [|done|by apply filter_keys_NoDup]. simpl.
  destruct (nothing_stale now _ (retained_fresh now (remotePlayers st)))
    as (-> & -> & ->).
  done.
Qed.

Lemma presence_unknown_notifies now peer name color st :
  peer <> peerId st ->
  Map_has peer (remotePlayers st) = false ->
  let r := handleIncomingMessage now (Heartbeat peer name color) st in
  join_notified name (fst r) (snd r).
Proof.
  intros Hne Hunknown. unfold handleIncomingMessage, handlePresence. simpl.
  rewrite decide_False by done. by rewrite Hunknown.
Qed.

(** X12. A removed peer is unknown again. Whether a known peer went by an
    accepted [playerLeft] or by the liveness pass, its next heartbeat
    fires the full join notifications again. *)
Theorem removed_peer_rejoins now now' peer info name color st :
  peer <> peerId st ->
  destroyed st = false ->
  NoDup (Map_keys (remotePlayers st)) ->
  Map_get peer (remotePlayers st) = Some info ->
  stale now info = true ->
  let left := fst (handleIncomingMessage now (PlayerLeft peer) st) in
  let evicted := fst (cleanupInterval_tick now st) in
  let r1 := handleIncomingMessage now' (Heartbeat peer name color) left in
  let r2 := handleIncomingMessage now' (Heartbeat peer name color) evicted in
  join_notified name (fst r1) (snd r1)
  /\ join_notified name (fst r2) (snd r2).
Proof.
  intros Hne Hlive Hnd Hget Hstale. cbv zeta. split.
  - apply presence_unknown_notifies.
    + unfold handleIncomingMessage. by rewrite decide_False.
    + unfold handleIncomingMessage. rewrite decide_False by done. simpl.
      apply Map_has_false. by apply Map_get_delete_eq.
  - rewrite cleanupInterval_tick_spec by done. simpl fst.
    apply presence_unknown_notifies; [done|]. simpl.
    apply Map_has_false.
    destruct (Map_get peer (retained now (remotePlayers st))) as [info'|] eqn:Hget';
      [|done].
    unfold retained in Hget'. apply Map_get_filter in Hget' as [Hget'' Hfresh];
      [|done].
    simpl in Hfresh. congruence.
Qed.

(** ** The deduplicator, again *)

Lemma deduplicate_no_id data st :
  truthy_opt (wire_msgId data) = false -> deduplicate data st = Some st.
Proof.
  unfold deduplicate, truthy_opt. destruct (wire_msgId data); [|done].
  by intros ->.
Qed.

(** X13. A message without a message id (none, or the empty string) is
    never taken for a duplicate. On a live instance every delivery of
    it, on either transport, runs the dispatcher on it, and the
    deduplication set stays as it is. *)
Theorem unidentified_message_always_dispatched env env' i i' data st :
  destroyed st = false ->
  truthy_opt (wire_msgId data) = false ->
  carries st i data ->
  carries st i' data ->
  let st1 := fst (step env i st) in
  step env i st = handleIncomingMessage (date_now env) (wire_msg data) st
  /\ seenMessageIds st1 = seenMessageIds st
  /\ step env' i' st1 = handleIncomingMessage (date_now env') (wire_msg data) st1.
Proof.
  intros Hlive Hnoid Hc Hc'. cbv zeta.
  rewrite (step_carries env i data st), deduplicate_no_id by done.
  pose proof (handleIncomingMessage_frame (date_now env) (wire_msg data) st)
    as (Hp & Hr & Hd & Hs).
  simpl in Hp, Hr, Hd, Hs. split_and!; [done|done|].
  rewrite (step_carries env' i' data), deduplicate_no_id; try done.
  - congruence.
  - by apply (carries_frame st).
Qed.

Lemma seen_ok_drop n seen : seen_ok seen -> seen_ok (drop n seen).
Proof.
  intros [Hnd Hne]. split.
  - eapply sublist_NoDup; [done | apply sublist_drop].
  - intros Hin. apply Hne. eapply elem_of_sublist; [done | apply sublist_drop].
Qed.

Lemma deduplicate_seen_ok data st st' :
  seen_ok (seenMessageIds st) ->
  deduplicate data st = Some st' ->
  seen_ok (seenMessageIds st').
Proof.
  intros Hok. unfold deduplicate.
  destruct (wire_msgId data) as [msgId|]; [|by intros [= <-]].
  destruct (truthy msgId) eqn:Ht; [|by intros [= <-]].
  destruct (Set_has msgId (seenMessageIds st)) eqn:Hhas; [done|].
  intros [= <-]. simpl. unfold Set_add. rewrite Hhas.
  apply Set_has_false in Hhas. apply truthy_true in Ht.
  assert (Hnew : seen_ok (seenMessageIds st ++ [msgId])).
  { destruct Hok as [Hnd Hne]. split.
    - apply NoDup_app. split_and!; [done| |apply NoDup_singleton].
      intros x Hx ->%list_elem_of_singleton. done.
    - rewrite not_elem_of_app. split; [done|].
      intros ?%list_elem_of_singleton. done. }
  case_bool_decide; [by apply seen_ok_drop | done].
Qed.

Lemma step_seen_ok env i st :
  seen_ok (seenMessageIds st) -> seen_ok (seenMessageIds (fst (step env i st))).
Proof.
  intros Hok.
  assert (Hin : forall now data,
             seen_ok (seenMessageIds
                        (fst (match deduplicate data st with
                              | None => (st, [])
                              | Some st' =>
                                  handleIncomingMessage now (wire_msg data) st'
                              end)))).
  { intros now data. destruct (deduplicate data st) as [st'|] eqn:Hd; [|done].
    pose proof (handleIncomingMessage_frame now (wire_msg data) st')
      as (_ & _ & _ & Hs).
    simpl in Hs. rewrite Hs. by eapply deduplicate_seen_ok. }
  destruct i as [data|e|task|player|level|level|]; simpl; try done.
  - unfold bcChannel_onmessage. destruct (destroyed st); [done|]. apply Hin.
  - destruct (storageHandler_call_cases (date_now env) e st)
      as [->|(Hlive & data & ->)]; [done|]. apply Hin.
  - destruct task; simpl; try done.
    unfold cleanupInterval_tick. destruct (destroyed st); [done|].
    by destruct (cleanup_forEach _ _ _ _) as [[reg effs] changed].
  - unfold destroy. simpl. by destruct (bcChannel st).
Qed.

(** X14. The deduplication set is a set of non-empty ids. In every state
    reached from construction no id occurs twice in it and the empty
    string is not in it. *)
Theorem seen_ids_distinct_nonempty
    rand36 stamp36 room name color host bc env0 schedule :
  let st := run schedule
              (fst (construct rand36 stamp36 room name color host bc env0)) in
  NoDup (seenMessageIds st) /\ EmptyString ∉ seenMessageIds st.
Proof.
  cbv zeta. set (st0 := fst (construct _ _ _ _ _ _ _ _)).
  assert (H0 : seen_ok (seenMessageIds st0)).
  { split; simpl; [apply NoDup_nil_2 | apply not_elem_of_nil]. }
  revert H0. generalize st0. clear st0.
  induction schedule as [|[env i] rest IH]; intros st Hok; [done|].
  simpl. by apply IH, step_seen_ok.
Qed.

(** ** Room ids *)

Lemma length_append a b :
  String.length (a +:+ b) = String.length a + String.length b.
Proof.
  induction a as [|x a IH]; [done|]. rewrite append_cons. simpl. by rewrite IH.
Qed.

Lemma list_ascii_append a b :
  list_ascii_of_string (a +:+ b)
  = list_ascii_of_string a ++ list_ascii_of_string b.
Proof.
  induction a as [|x a IH]; [done|]. rewrite append_cons. simpl. by rewrite IH.
Qed.

Lemma alphabet_string_append a b :
  alphabet_string (a +:+ b) = alphabet_string a && alphabet_string b.
Proof. unfold alphabet_string. by rewrite list_ascii_append, forallb_app. Qed.

Lemma in_alphabet_class c :
  in_alphabet c = true ->
  room_id_char c = true /\ Nat.eqb (Ascii.nat_of_ascii c) 45 = false.
Proof.
  unfold in_alphabet. rewrite existsb_exists.
  intros (x & Hin & Heq). apply Ascii.eqb_eq in Heq. subst x.
  simpl in Hin.
  repeat (destruct Hin as [<-|Hin]; [by vm_compute|]). done.
Qed.

Lemma alphabet_string_class s :
  alphabet_string s = true -> room_id_string s = true /\ has_dash s = false.
Proof.
  unfold alphabet_string, room_id_string, has_dash.
  induction (list_ascii_of_string s) as [|c l IH]; [done|]. simpl.
  intros [Hc Hl]%andb_prop. destruct (in_alphabet_class c Hc) as [-> ->].
  destruct (IH Hl) as [-> ->]. done.
Qed.

Lemma charAt_alphabet i :
  i < 32 ->
  String.length (charAt room_alphabet i) = 1
  /\ alphabet_string (charAt room_alphabet i) = true.
Proof.
  intros Hi.
  do 32 (destruct i as [|i]; [by vm_compute|]). lia.
Qed.

Lemma generateRoomId_from_spec draw n :
  forall i id,
    (forall j, j < i + n -> draw j < 32) ->
    String.length (generateRoomId_from draw i n id) = String.length id + n
    /\ alphabet_string (generateRoomId_from draw i n id) = alphabet_string id.
Proof.
  induction n as [|n IH]; intros i id Hdraw; simpl.
  - split; [lia|done].
  - destruct (IH (S i) (id +:+ charAt room_alphabet (draw i))) as [Hlen Halpha].
    { intros j Hj. apply Hdraw. lia. }
    destruct (charAt_alphabet (draw i)) as [Hlen1 Halpha1].
    { apply Hdraw. lia. }
    rewrite Hlen, Halpha, length_append, alphabet_string_append, Hlen1, Halpha1.
    split; [lia | apply andb_true_r].
Qed.

(** X15. A generated room id is six characters of the alphabet (capital
    letters and digits without I, O, 0 and 1), whatever the draws; so
    it holds no dash and every character is of the class the link
    parser accepts. *)
Theorem generateRoomId_shape draw :
  (forall i, i < 6 -> draw i < 32) ->
  String.length (generateRoomId draw) = 6
  /\ alphabet_string (generateRoomId draw) = true
  /\ room_id_string (generateRoomId draw) = true
  /\ has_dash (generateRoomId draw) = false.
Proof.
  intros Hdraw. unfold generateRoomId.
  pose proof (generateRoomId_from_spec draw 6 0 EmptyString Hdraw) as [Hlen Halpha].
  remember (generateRoomId_from draw 0 6 EmptyString) as id eqn:Hgen.
  simpl in Hlen, Halpha.
  destruct (alphabet_string_class _ Halpha) as [Hclass Hdash].
  done.
Qed.

Lemma take_room_id_all id rest :
  room_id_string id = true ->
  stops_capture rest = true ->
  take_room_id (id +:+ rest) = id.
Proof.
  unfold room_id_string. intros Hid Hrest.
  induction id as [|c id IH].
  - rewrite append_nil_l. destruct rest as [|c rest]; [done|].
    simpl in *. by destruct (room_id_char c).
  - simpl in Hid. apply andb_prop in Hid as [Hc Hid].
    rewrite append_cons. simpl. rewrite Hc. by rewrite IH.
Qed.

Lemma match_room_here_found id rest :
  room_id_string id = true ->
  truthy id = true ->
  stops_capture rest = true ->
  match_room_here ("room=" +:+ id +:+ rest) = Some id.
Proof.
  intros Hid Hne Hrest. unfold match_room_here.
  rewrite prefix_app.
  change (drop_chars 5 ("room=" +:+ id +:+ rest)) with (id +:+ rest).
  by rewrite take_room_id_all, Hne.
Qed.

Lemma match_room_skip c s :
  c <> Ascii.ascii_of_nat 114 -> match_room (String c s) = match_room s.
Proof.
  intros Hc. cbn [match_room]. unfold match_room_here.
  change (String.prefix "room=" (String c s))
    with (if Ascii.ascii_dec (Ascii.ascii_of_nat 114) c
          then String.prefix "oom=" s else false).
  destruct (Ascii.ascii_dec _ c) as [Heq|_]; [|done]. by destruct Hc.
Qed.

Lemma match_room_first s id :
  match_room_here s = Some id -> match_room s = Some id.
Proof. intros Hhere. destruct s; cbn [match_room]; by rewrite Hhere. Qed.

Lemma append_nil_r a : a +:+ EmptyString = a.
Proof. induction a as [|c a IH]; [done|]. rewrite append_cons. by f_equal. Qed.

(** X16. A link's hash gives the room id back. For a non-empty id made of
    letters, digits and dashes, the hash [#room=<id>], alone or followed
    by text that starts outside that class, parses to the id. *)
Theorem getRoomIdFromURL_round_trip id rest :
  room_id_string id = true ->
  truthy id = true ->
  stops_capture rest = true ->
  getRoomIdFromURL ("#room=" +:+ id +:+ rest) = Some id.
Proof.
  intros Hid Hne Hrest. unfold getRoomIdFromURL.
  rewrite append_cons, match_room_skip by done.
  apply match_room_first. by apply match_room_here_found.
Qed.

(** X17. A room created by the application can be joined through its
    link. The id [generateRoomId] returns, put in a hash as
    [#room=<id>], is what [getRoomIdFromURL] reads back. *)
Theorem generated_room_link_round_trip draw :
  (forall i, i < 6 -> draw i < 32) ->
  getRoomIdFromURL ("#room=" +:+ generateRoomId draw) = Some (generateRoomId draw).
Proof.
  intros Hdraw. unfold generateRoomId.
  pose proof (generateRoomId_from_spec draw 6 0 EmptyString Hdraw) as [Hlen Halpha].
  remember (generateRoomId_from draw 0 6 EmptyString) as id eqn:Hgen.
  simpl in Hlen, Halpha.
  destruct (alphabet_string_class _ Halpha) as [Hclass _].
  assert (Hne : truthy id = true).
  { apply truthy_true. intros Heq. rewrite Heq in Hlen. done. }
  unfold getRoomIdFromURL.
  rewrite append_cons, match_room_skip by done.
  apply match_room_first.
  rewrite <- (append_nil_r id) at 1. by apply match_room_here_found.
Qed.

Lemma take_room_id_split s :
  exists post,
    s = take_room_id s +:+ post
    /\ stops_capture post = true
    /\ room_id_string (take_room_id s) = true.
Proof.
  induction s as [|c s (post & Hs & Hstop & Hclass)].
  - by exists EmptyString.
  - cbn [take_room_id]. destruct (room_id_char c) eqn:Hc.
    + exists post. rewrite append_cons, <- Hs. split_and!; [done|done|].
      unfold room_id_string in *. simpl. by rewrite Hc.
    + exists (String c s). rewrite append_nil_l. split_and!; [done| |done].
      simpl. by rewrite Hc.
Qed.

Lemma prefix_split p :
  forall s,
    String.prefix p s = true -> s = p +:+ drop_chars (String.length p) s.
Proof.
  induction p as [|c p IH]; intros s Hpre; [done|].
  destruct s as [|c' s]; [done|].
  apply prefix_cons_inv in Hpre as [<- Hpre].
  rewrite append_cons. simpl. f_equal. by apply IH.
Qed.

Lemma match_room_here_sound s id :
  match_room_here s = Some id ->
  truthy id = true
  /\ room_id_string id = true
  /\ exists post, s = "room=" +:+ id +:+ post /\ stops_capture post = true.
Proof.
  unfold match_room_here.
  destruct (String.prefix "room=" s) eqn:Hpre; [|done].
  apply (prefix_split "room=") in Hpre.
  change (String.length "room=") with 5 in Hpre.
  remember (drop_chars 5 s) as tail eqn:Htail.
  destruct (truthy (take_room_id tail)) eqn:Hne; [|done].
  intros [= <-].
  destruct (take_room_id_split tail) as (post & Hs & Hstop & Hclass).
  split_and!; [done|done|]. exists post. split; [|done].
  by rewrite <- Hs.
Qed.

(** X18. What [getRoomIdFromURL] returns is a usable room id taken from
    the hash. Whenever it returns an id, the id is not empty, consists
    of letters, digits and dashes only, stands in the hash right after
    [room=], and is the whole run of such characters there. *)
Theorem getRoomIdFromURL_sound hash id :
  getRoomIdFromURL hash = Some id ->
  truthy id = true
  /\ room_id_string id = true
  /\ exists pre post,
       hash = pre +:+ "room=" +:+ id +:+ post /\ stops_capture post = true.
Proof.
  unfold getRoomIdFromURL. induction hash as [|c hash IH]; cbn [match_room].
  - destruct (match_room_here EmptyString) as [found|] eqn:Hhere; [|done].
    intros [= ->].
    destruct (match_room_here_sound _ _ Hhere) as (Hne & Hclass & post & Hs & Hstop).
    split_and!; [done|done|]. by exists EmptyString, post.
  - destruct (match_room_here (String c hash)) as [found|] eqn:Hhere.
    + intros [= ->].
      destruct (match_room_here_sound _ _ Hhere)
        as (Hne & Hclass & post & Hs & Hstop).
      split_and!; [done|done|]. by exists EmptyString, post.
    + intros Hlater.
      destruct (IH Hlater) as (Hne & Hclass & pre & post & Hs & Hstop).
      split_and!; [done|done|]. exists (String c pre), post.
      rewrite append_cons, <- Hs. done.
Qed.

(** ** The canvas behind the manager *)

Lemma canvas_feed_app effs1 effs2 state :
  canvas_feed (effs1 ++ effs2) state
  = canvas_feed effs2 (canvas_feed effs1 state).
Proof. apply fold_left_app. Qed.

Lemma canvas_feed_None effs : canvas_feed effs None = None.
Proof.
  induction effs as [|e effs IH]; [done|].
  unfold canvas_feed in *. simpl. by destruct e.
Qed.

Lemma canvas_feed_silent effs state :
  messages effs = [] -> canvas_feed effs state = state.
Proof.
  revert state. induction effs as [|e effs IH]; intros state Hsilent; [done|].
  unfold canvas_feed, messages in *. simpl in *.
  destruct e; try done; by apply IH.
Qed.

Lemma messages_broadcast env msg st : messages (broadcast env msg st) = [].
Proof.
  unfold broadcast. destruct (destroyed st); [done|].
  by destruct (bcChannel st) as [[]|], (localStorage env).
Qed.

Lemma Map_keys_get {V} (k : string) (m : JsMap V) :
  k ∈ Map_keys m <-> Map_get k m <> None.
Proof.
  pose proof (Map_get_None_keys k m) as Hnone.
  destruct (Map_get k m) as [v|].
  - split; [done|]. intros _.
    destruct (decide (k ∈ Map_keys m)) as [|Hnot]; [done|].
    by apply Hnone in Hnot.
  - split; [|done]. intros Hin. by apply Hnone in Hin.
Qed.

Lemma Map_keys_set_elem {V} (k p : string) (v : V) (m : JsMap V) :
  k ∈ Map_keys (Map_set p v m) <-> k = p \/ k ∈ Map_keys m.
Proof.
  rewrite !Map_keys_get. destruct (decide (k = p)) as [->|Hne].
  - rewrite Map_get_set_eq. split; [by left | done].
  - rewrite Map_get_set_ne by done. split; [by right | by intros [|]].
Qed.

Lemma Map_keys_delete_elem {V} (k p : string) (m : JsMap V) :
  NoDup (Map_keys m) ->
  k ∈ Map_keys (Map_delete p m) <-> k <> p /\ k ∈ Map_keys m.
Proof.
  intros Hnd. rewrite !Map_keys_get. destruct (decide (k = p)) as [->|Hne].
  - rewrite Map_get_delete_eq by done. split; [done | by intros [? _]].
  - rewrite Map_get_delete_ne by done. split; [done | by intros [_ ?]].
Qed.

Lemma canvas_None_ok (reg : JsMap RemotePlayerInfo) :
  NoDup (canvas_peers None) /\ canvas_covered reg None.
Proof.
  split; [apply NoDup_nil_2|]. intros k Hk. by apply elem_of_nil in Hk.
Qed.

Lemma handleIncomingMessage_canvas now msg st state :
  NoDup (Map_keys (remotePlayers st)) ->
  NoDup (canvas_peers state) ->
  canvas_covered (remotePlayers st) state ->
  let r := handleIncomingMessage now msg st in
  NoDup (canvas_peers (canvas_feed (snd r) state))
  /\ canvas_covered (remotePlayers (fst r)) (canvas_feed (snd r) state).
Proof.
  intros Hreg Hnd Hcov. cbv zeta.
  destruct state as [g|]; [|rewrite canvas_feed_None; apply canvas_None_ok].
  unfold canvas_covered in *. simpl in Hnd, Hcov.
  unfold handleIncomingMessage, handlePresence.
  destruct (decide _); [done|].
  destruct msg as [player peer|level peer|peer name color|peer|level peer
                  |peer name color]; simpl; try done.
  - destruct (Map_get peer (remotePlayers st)) as [existing|]; simpl;
      (split; [by apply Map_set_NoDup|]);
      intros k; rewrite !Map_keys_set_elem; intros [->|Hin]; auto.
  - destruct (Map_has peer (remotePlayers st)); simpl;
      (split; [done|]); intros k Hin; apply Map_keys_set_elem; auto.
  - destruct (Map_get peer (remotePlayers st)) as [leaving|]; simpl;
      (split; [by apply Map_delete_NoDup|]);
      intros k; rewrite !Map_keys_delete_elem by done; intros [? ?]; auto.
  - destruct (Map_has peer (remotePlayers st)); simpl;
      (split; [done|]); intros k Hin; apply Map_keys_set_elem; auto.
Qed.

Lemma canvas_feed_departures now entries :
  forall g,
    canvas_feed (departures now entries) (Some g)
    = Some (canvas_evict now entries g).
Proof.
  induction entries as [|[id player] rest IH]; intros g; [done|].
  rewrite departures_cons, canvas_feed_app. unfold canvas_evict. simpl.
  destruct (stale now player); simpl; apply IH.
Qed.

Lemma canvas_evict_keys now entries :
  forall g,
    NoDup (Map_keys g) ->
    NoDup (Map_keys (canvas_evict now entries g))
    /\ forall k,
         k ∈ Map_keys (canvas_evict now entries g) ->
         k ∈ Map_keys g /\ k ∉ Map_keys (evicted now entries).
Proof.
  induction entries as [|[id player] rest IH]; intros g Hnd.
  - split; [done|]. intros k Hin. split; [done | apply not_elem_of_nil].
  - unfold canvas_evict, evicted in *. simpl. rewrite filter_cons. simpl.
    destruct (stale now player) eqn:Hstale.
    + rewrite decide_True by done.
      destruct (IH (Map_delete id g)) as [Hnd' Hkeys];
        [by apply Map_delete_NoDup|].
      split; [done|]. intros k Hin.
      destruct (Hkeys k Hin) as [Hdel Hnot].
      apply Map_keys_delete_elem in Hdel as [Hne Hg]; [|done].
      split; [done|]. unfold Map_keys. rewrite fmap_cons, not_elem_of_cons.
      done.
    + rewrite decide_False by done. by apply IH.
Qed.

Lemma retained_keys now reg k :
  NoDup (Map_keys reg) ->
  k ∈ Map_keys reg ->
  k ∉ Map_keys (evicted now reg) ->
  k ∈ Map_keys (retained now reg).
Proof.
  intros Hnd [v Hin]%elem_of_Map_keys Hnot.
  apply elem_of_Map_keys. exists v. unfold retained.
  apply list_elem_of_filter. split; [|done]. simpl.
  by apply (evicted_keys_stale now reg k v).
Qed.

Lemma step_canvas env i st state :
  well_formed st ->
  NoDup (canvas_peers state) ->
  (destroyed st = false -> canvas_covered (remotePlayers st) state) ->
  let st' := fst (step env i st) in
  let state' := canvas_feed (snd (step env i st)) state in
  NoDup (canvas_peers state')
  /\ (destroyed st' = false -> canvas_covered (remotePlayers st') state').
Proof.
  intros Hwf Hnd Hcov. cbv zeta.
  destruct (destroyed st) eqn:Hlive.
  { pose proof (step_torn_down env i st) as Hdown.
    pose proof (step_destroyed_stays env i st Hlive) as Hstay.
    rewrite Hstay. split; [|done].
    destruct Hwf as (_ & _ & Hgone).
    assert (Hquiet : messages (snd (step env i st)) = []).
    { destruct i as [data|e|task|player|level|level|]; simpl.
      - unfold bcChannel_onmessage. by rewrite Hlive.
      - unfold storageHandler_call. by rewrite Hlive.
      - destruct task; simpl.
        + by rewrite Hlive.
        + unfold heartbeatInterval_tick. by rewrite Hlive.
        + unfold cleanupInterval_tick. by rewrite Hlive.
        + unfold announceJoin. by rewrite Hlive.
        + by destruct (localStorage env).
      - apply messages_broadcast.
      - apply messages_broadcast.
      - apply messages_broadcast.
      - unfold destroy. simpl.
        assert (Hrm : forall keys, messages (map RemoveItem keys) = [])
          by (induction keys; simpl; auto).
        unfold messages in *. rewrite !flat_map_app.
        destruct (bcChannel st), (storageHandler st), (localStorage env); simpl;
          rewrite ?Hrm; done. }
    by rewrite canvas_feed_silent. }
  specialize (Hcov eq_refl). destruct Hwf as (Hreg & _ & _).
  assert (Hin : forall now data,
             let r := match deduplicate data st with
                      | None => (st, [])
                      | Some st' => handleIncomingMessage now (wire_msg data) st'
                      end in
             NoDup (canvas_peers (canvas_feed (snd r) state))
             /\ (destroyed (fst r) = false ->
                 canvas_covered (remotePlayers (fst r)) (canvas_feed (snd r) state))).
  { intros now data. cbv zeta.
    destruct (deduplicate data st) as [st0|] eqn:Hd; [|done].
    apply deduplicate_frame in Hd as (_ & _ & _ & Hr).
    destruct (handleIncomingMessage_canvas now (wire_msg data) st0 state)
      as [Hnd' Hcov']; rewrite ?Hr; done. }
  destruct i as [data|e|task|player|level|level|]; simpl.
  - unfold bcChannel_onmessage. rewrite Hlive. apply Hin.
  - destruct (storageHandler_call_cases (date_now env) e st)
      as [->|(_ & data & ->)]; [done|]. apply Hin.
  - destruct task; simpl.
    + rewrite Hlive. done.
    + rewrite canvas_feed_silent; [done|].
      unfold heartbeatInterval_tick. rewrite Hlive. apply messages_broadcast.
    + rewrite cleanupInterval_tick_spec by done. simpl.
      rewrite canvas_feed_app.
      assert (Htail : forall s,
                 canvas_feed
                   match evicted (date_now env) (remotePlayers st) with
                   | [] => []
                   | _ :: _ =>
                       notifyConnectionChange
                         (with_remotePlayers
                            (retained (date_now env) (remotePlayers st)) st)
                   end s = s).
      { intros s. apply canvas_feed_silent.
        by destruct (evicted (date_now env) (remotePlayers st)). }
      rewrite Htail.
      destruct state as [g|].
      2: { rewrite canvas_feed_None. split; [apply NoDup_nil_2|].
           intros _. apply canvas_None_ok. }
      rewrite canvas_feed_departures.
      destruct (canvas_evict_keys (date_now env) (remotePlayers st) g Hnd)
        as [Hnd' Hkeys].
      split; [done|]. intros _ k Hk.
      destruct (Hkeys k Hk) as [Hg Hnot].
      apply retained_keys; [done| |done]. by apply Hcov.
    + rewrite canvas_feed_silent; [done|].
      unfold announceJoin. rewrite Hlive. apply messages_broadcast.
    + rewrite canvas_feed_silent; [done|]. by destruct (localStorage env).
  - rewrite canvas_feed_silent; [done|]. apply messages_broadcast.
  - rewrite canvas_feed_silent; [done|]. apply messages_broadcast.
  - rewrite canvas_feed_silent; [done|]. apply messages_broadcast.
  - split; [|by destruct (bcChannel st)].
    rewrite canvas_feed_silent; [done|].
    unfold destroy. simpl.
    assert (Hrm : forall keys, messages (map RemoveItem keys) = [])
      by (induction keys; simpl; auto).
    unfold messages in *. rewrite !flat_map_app.
    destruct (bcChannel st), (storageHandler st), (localStorage env); simpl;
      rewrite ?Hrm; done.
Qed.

(** X19. The game only holds players the manager has registered. With
    the canvas handler installed as [onMessage], from construction and
    through any sequence of manager bodies and level (re)starts, as long
    as the instance is not destroyed every peer in the game's map of
    remote players has an entry in the manager's registry; in
    particular a peer the manager evicts or sees leave is dropped from
    the game in the same body. *)
Theorem canvas_players_registered
    rand36 stamp36 room name color host bc env0 events peer :
  let sys := canvas_run events
               (fst (construct rand36 stamp36 room name color host bc env0), None) in
  destroyed (fst sys) = false ->
  peer ∈ canvas_peers (snd sys) ->
  peer ∈ Map_keys (remotePlayers (fst sys)).
Proof.
  cbv zeta. set (st0 := fst (construct _ _ _ _ _ _ _ _)).
  assert (Hinv : forall sys,
             well_formed (fst sys) ->
             NoDup (canvas_peers (snd sys)) ->
             (destroyed (fst sys) = false ->
              canvas_covered (remotePlayers (fst sys)) (snd sys)) ->
             let sys' := canvas_run events sys in
             destroyed (fst sys') = false ->
             canvas_covered (remotePlayers (fst sys')) (snd sys')).
  { clear. induction events as [|ev events IH]; intros [st state] Hwf Hnd Hcov.
    - simpl in *. done.
    - simpl. apply IH.
      + destruct ev as [env i|levelExists]; simpl; [|done].
        by apply step_well_formed.
      + destruct ev as [env i|levelExists]; simpl.
        * by apply step_canvas.
        * destruct levelExists; [apply NoDup_nil_2 | done].
      + destruct ev as [env i|levelExists]; simpl.
        * by apply step_canvas.
        * destruct levelExists; [|done].
          intros _ k Hk. by apply elem_of_nil in Hk. }
  intros Hlive Hin.
  apply (Hinv (st0, None)); simpl; try done.
  - apply construct_well_formed.
  - apply NoDup_nil_2.
  - intros _ k Hk. by apply elem_of_nil in Hk.
Qed.

(** ** Timestamps *)

Lemma handleIncomingMessage_seen_by now t msg st :
  (t <= now)%Z ->
  seen_by now (remotePlayers st) ->
  seen_by now (remotePlayers (fst (handleIncomingMessage t msg st))).
Proof.
  intros Ht Hok. unfold handleIncomingMessage, handlePresence.
  destruct (decide _); [done|].
  assert (Hset : forall peer info,
             (info_lastSeen info <= now)%Z ->
             seen_by now (Map_set peer info (remotePlayers st))).
  { intros peer info Hinfo k v Hin.
    apply elem_of_Map_set in Hin as [[= -> ->]|Hin]; [done|]. by apply (Hok k). }
  destruct msg as [player peer|level peer|peer name color|peer|level peer
                  |peer name color]; simpl; try done.
  - destruct (Map_get peer (remotePlayers st)); simpl; by apply Hset.
  - destruct (Map_has peer (remotePlayers st)); simpl; by apply Hset.
  - intros k v Hin. apply (Hok k). by apply elem_of_Map_delete in Hin.
  - destruct (Map_has peer (remotePlayers st)); simpl; by apply Hset.
Qed.

Lemma step_seen_by now env i st :
  (date_now env <= now)%Z ->
  well_formed st ->
  seen_by now (remotePlayers st) ->
  seen_by now (remotePlayers (fst (step env i st))).
Proof.
  intros Ht Hwf Hok.
  assert (Hin : forall data,
             seen_by now
               (remotePlayers
                  (fst (match deduplicate data st with
                        | None => (st, [])
                        | Some st' =>
                            handleIncomingMessage (date_now env) (wire_msg data) st'
                        end)))).
  { intros data. destruct (deduplicate data st) as [st'|] eqn:Hd; [|done].
    apply deduplicate_frame in Hd as (_ & _ & _ & Hr).
    apply handleIncomingMessage_seen_by; [done|]. by rewrite Hr. }
  destruct i as [data|e|task|player|level|level|]; simpl; try done.
  - unfold bcChannel_onmessage. destruct (destroyed st); [done|]. apply Hin.
  - destruct (storageHandler_call_cases (date_now env) e st)
      as [->|(_ & data & ->)]; [done|]. apply Hin.
  - destruct task; simpl; try done.
    destruct (destroyed st) eqn:Hlive.
    { unfold cleanupInterval_tick. by rewrite Hlive. }
    destruct Hwf as (Hnd & _ & _).
    rewrite cleanupInterval_tick_spec by done. simpl.
    intros k v Hkv. apply (Hok k). unfold retained in Hkv.
    by apply list_elem_of_filter in Hkv as [_ ?].
  - unfold destroy. simpl. intros k v Hkv. by apply elem_of_nil in Hkv.
Qed.

(** X20. No entry is stamped later than the clock has read. If every
    body of a run from construction read a clock value of at most
    [now], every entry of the player list has a [lastSeen] of at most
    [now]: the age the liveness pass computes is never negative as long
    as the clock does not go back. *)
Theorem lastSeen_never_ahead
    rand36 stamp36 room name color host bc env0 schedule now info :
  let st := run schedule
              (fst (construct rand36 stamp36 room name color host bc env0)) in
  Forall (fun ei => (date_now (fst ei) <= now)%Z) schedule ->
  info ∈ getPlayerList st ->
  (info_lastSeen info <= now)%Z.
Proof.
  cbv zeta. set (st0 := fst (construct _ _ _ _ _ _ _ _)).
  intros Hclock.
  assert (Hinv : forall st,
             well_formed st -> seen_by now (remotePlayers st) ->
             seen_by now (remotePlayers (run schedule st))).
  { induction Hclock as [|[env i] rest Henv _ IH]; intros st Hwf Hok; [done|].
    simpl. apply IH; [by apply step_well_formed|].
    by apply step_seen_by. }
  unfold getPlayerList, Map_values.
  intros ([k v] & -> & Hin)%list_elem_of_fmap. simpl.
  apply (Hinv st0) in Hin; [done|apply construct_well_formed|].
  intros k' v' Hnil. by apply elem_of_nil in Hnil.
Qed.

End Manager.

(** * Concrete instances

    The levels are integers here; the parser is [sample_parse] around
    Bob's heartbeat. *)

(** The constructor starts the two drivers: heartbeats every 400 ms and
    the liveness pass every 2000 ms. *)
Lemma construct_starts_drivers (rand36 stamp36 room name color : string)
    (host bc : bool) (env : Env) :
  let effs := snd (construct (number := Z) rand36 stamp36 room name color host bc env) in
  SetInterval HeartbeatTask 400 ∈ effs /\ SetInterval CleanupTask 2000 ∈ effs.
Proof.
  simpl. split.
  - apply list_elem_of_further, list_elem_of_here.
  - do 2 apply list_elem_of_further. apply list_elem_of_here.
Qed.

(** Alice destroys her instance with both transports working: the
    timers, the channel, the listener, and nothing else. *)
Example destroy_alice :
  snd (destroy (number := Z) (env_at 9000) alice_in_room)
  = [ClearInterval HeartbeatInterval; ClearInterval CleanupInterval;
     CloseChannel; RemoveStorageListener].
Proof. reflexivity. Qed.

(** The same [broadcast] on the live instance does send. *)
Example broadcast_alice_live :
  existsb is_send
    (broadcast (number := Z) (env_at 9000) (PlayerLeft (peerId alice)) alice_in_room)
  = true.
Proof. reflexivity. Qed.

Lemma self_messages_never_processed_witness :
  let P := sample_parse (number := Z) bob_heartbeat in
  let i := StorageDelivery alice_record in
  from_self P alice_in_room i = true
  /\ remotePlayers (fst (step P (env_at 9000) i alice_in_room))
     = remotePlayers alice_in_room
  /\ snd (step P (env_at 9000) i alice_in_room) = []
  /\ fst (step P (env_at 9000) i alice_in_room) = alice_in_room.
Proof.
  split; [reflexivity|].
  apply (self_messages_never_processed
           (sample_parse (number := Z) bob_heartbeat) (env_at 9000)
           (StorageDelivery alice_record) alice_in_room).
  reflexivity.
Defined.

Lemma playerLeft_removes_and_notifies_witness :
  let r := handleIncomingMessage (number := Z) 9000 (PlayerLeft (info_id bob))
             alice_in_room in
  info_id bob <> peerId alice_in_room
  /\ NoDup (Map_keys (remotePlayers alice_in_room))
  /\ Map_get (info_id bob) (remotePlayers (fst r)) = None
  /\ remotePlayers (fst r) = [(info_id carol, carol)]
  /\ statuses (snd r) = [status_left "Bob"]
  /\ membership_notified (fst r) (snd r)
  /\ messages (snd r) = [PlayerLeft (info_id bob)].
Proof.
  assert (H1 : info_id bob <> peerId alice_in_room) by compute_done.
  assert (H2 : NoDup (Map_keys (remotePlayers alice_in_room))) by compute_done.
  split; [exact H1|]. split; [exact H2|].
  apply (playerLeft_removes_and_notifies (number := Z) 9000 (info_id bob)
           alice_in_room H1 H2).
Defined.

Lemma presence_messages_refresh_lastSeen_witness :
  let msg := Heartbeat (number := Z) (info_id bob) "Bobby" "#00ffff" in
  msg_peerId msg <> peerId alice_in_room
  /\ refreshed 9000 msg (fst (handleIncomingMessage 9000 msg alice_in_room))
  /\ Map_get (info_id bob)
       (remotePlayers (fst (handleIncomingMessage 9000 msg alice_in_room)))
     = Some (mkInfo (info_id bob) "Bobby" "#00ffff" 9000).
Proof.
  assert (H1 : msg_peerId (Heartbeat (number := Z) (info_id bob) "Bobby" "#00ffff")
               <> peerId alice_in_room) by compute_done.
  split; [exact H1|].
  apply (presence_messages_refresh_lastSeen 9000
           (Heartbeat (number := Z) (info_id bob) "Bobby" "#00ffff")
           alice_in_room H1).
Defined.

Lemma unknown_to_known_notifies_once_witness :
  let msg := PlayerJoin (number := Z) (info_id bob) "Bob" "#00ff00" in
  let r := handleIncomingMessage 9000 msg alice in
  msg_peerId msg <> peerId alice
  /\ Map_has (info_id bob) (remotePlayers (fst r)) = true
  /\ join_notified "Bob" (fst r) (snd r).
Proof.
  assert (H1 : msg_peerId (PlayerJoin (number := Z) (info_id bob) "Bob" "#00ff00")
               <> peerId alice) by compute_done.
  split; [exact H1|].
  apply (unknown_to_known_notifies_once 9000
           (PlayerJoin (number := Z) (info_id bob) "Bob" "#00ff00") alice H1).
Defined.

Lemma liveness_pass_evicts_stale_witness :
  let r := cleanupInterval_tick (number := Z) 6000 alice_in_room in
  destroyed alice_in_room = false
  /\ NoDup (Map_keys (remotePlayers alice_in_room))
  /\ remotePlayers (fst r) = [(info_id carol, carol)]
  /\ statuses (snd r) = [status_timed_out "Bob"]
  /\ messages (snd r) = [PlayerLeft (info_id bob)]
  /\ membership_notified (fst r) (snd r).
Proof.
  assert (H2 : NoDup (Map_keys (remotePlayers alice_in_room))) by compute_done.
  split; [reflexivity|]. split; [exact H2|].
  apply (liveness_pass_evicts_stale (number := Z) 6000 alice_in_room eq_refl H2).
Defined.

Lemma registry_follows_presence_witness :
  let P := sample_parse (number := Z) bob_heartbeat in
  let schedule :=
    [(env_at 1000, BcDelivery bob_heartbeat); (env_at 3000, Fire CleanupTask)] in
  let st0 :=
    fst (construct (number := Z) "alice000" "k1" "ABCDEF" "Alice" "#ff0000"
           true true (env_at 0)) in
  let st := run P schedule st0 in
  let heard := last_heard P (info_id bob) schedule st0 None in
  chronological schedule 3500
  /\ heard = Some 1000%Z
  /\ (destroyed st = false ->
      forall t,
        heard = Some t -> (3500 - t <= 3000)%Z ->
        exists info,
          Map_get (info_id bob) (remotePlayers st) = Some info
          /\ info_lastSeen info = t)
  /\ (forall info,
        Map_get (info_id bob) (remotePlayers st) = Some info ->
        heard = Some (info_lastSeen info))
  /\ (forall before envp after info,
        schedule = before ++ (envp, Fire CleanupTask) :: after ->
        Map_get (info_id bob) (remotePlayers st) = Some info ->
        (date_now envp - info_lastSeen info <= 3000)%Z).
Proof.
  assert (Hchron : chronological (number := Z)
                     [(env_at 1000, BcDelivery bob_heartbeat);
                      (env_at 3000, Fire CleanupTask)] 3500).
  { simpl. repeat constructor; simpl; lia. }
  split; [exact Hchron|]. split; [reflexivity|].
  apply (registry_follows_presence (sample_parse (number := Z) bob_heartbeat)
           "alice000" "k1" "ABCDEF" "Alice" "#ff0000" true true (env_at 0)
           [(env_at 1000, BcDelivery bob_heartbeat);
            (env_at 3000, Fire CleanupTask)]
           3500 (info_id bob) Hchron).
Defined.

Lemma duplicate_delivery_dropped_witness :
  let P := sample_parse (number := Z) bob_heartbeat in
  let i := BcDelivery bob_heartbeat in
  let i' := StorageDelivery bob_record in
  let st1 := fst (step P (env_at 5000) i alice) in
  destroyed alice = false
  /\ truthy "p-bob00000-k2-1700000000000-x7q2" = true
  /\ carries P alice i bob_heartbeat
  /\ carries P alice i' bob_heartbeat
  /\ (exists st0,
        deduplicate (number := Z) bob_heartbeat alice = Some st0
        /\ remotePlayers st0 = remotePlayers alice
        /\ step P (env_at 5000) i alice
           = handleIncomingMessage 5000 (wire_msg bob_heartbeat) st0)
  /\ Set_has "p-bob00000-k2-1700000000000-x7q2" (seenMessageIds st1) = true
  /\ step P (env_at 5400) i' st1 = (st1, []).
Proof.
  assert (Hc' : carries (sample_parse (number := Z) bob_heartbeat) alice
                  (StorageDelivery bob_record) bob_heartbeat).
  { exists "cr-ABCDEF-1700000000000-9zk1", "{from:bob}", (info_id bob).
    repeat split; compute_done. }
  split; [reflexivity|]. split; [reflexivity|]. split; [reflexivity|].
  split; [exact Hc'|].
  apply (duplicate_delivery_dropped
           (sample_parse (number := Z) bob_heartbeat) (env_at 5000) (env_at 5400)
           (BcDelivery bob_heartbeat) (StorageDelivery bob_record)
           bob_heartbeat "p-bob00000-k2-1700000000000-x7q2" alice
           eq_refl eq_refl eq_refl eq_refl Hc').
Defined.

(** The same logical send arriving on both transports registers Bob
    once: one status, one count, one list. *)
Example both_transports_one_join :
  trace (sample_parse (number := Z) bob_heartbeat)
    [(env_at 5000, StorageDelivery bob_record);
     (env_at 5001, BcDelivery bob_heartbeat)] alice
  = [OnStatusChange (status_joined "Bob");
     OnConnectionChange 1;
     OnPlayerListChange [mkInfo (info_id bob) "Bob" "#00ff00" 5000]].
Proof. reflexivity. Qed.

(** C2 as stated fails: a [levelChange] from Bob, accepted at 9000,
    leaves his [lastSeen] at 1000. *)
Lemma levelChange_leaves_lastSeen :
  ~ (forall (now : Z) (msg : MultiplayerMessage (number := Z))
            (st : MultiplayerManager),
        msg_peerId msg <> peerId st ->
        is_playerLeft msg = false ->
        refreshed now msg (fst (handleIncomingMessage now msg st))).
Proof.
  intros Hclaim.
  destruct (Hclaim 9000%Z (LevelChange 2%Z (info_id bob)) alice_in_room)
    as (info & Hget & Hseen).
  - compute_done.
  - reflexivity.
  - vm_compute in Hget. injection Hget as <-. discriminate Hseen.
Qed.

(** C3 as stated fails: the first [playerUpdate] of an unknown peer
    makes it known without any "peer joined" status. *)
Lemma playerUpdate_joins_without_status :
  ~ (forall (now : Z) (msg : MultiplayerMessage (number := Z))
            (st : MultiplayerManager) (name : string),
        msg_peerId msg <> peerId st ->
        Map_has (msg_peerId msg) (remotePlayers st) = false ->
        msg_name msg = Some name ->
        join_notified name (fst (handleIncomingMessage now msg st))
                           (snd (handleIncomingMessage now msg st))).
Proof.
  intros Hclaim.
  destruct (Hclaim 9000%Z
              (PlayerUpdate
                 {| ps_x := 10%Z; ps_y := 20%Z; ps_vx := 0%Z; ps_vy := 0%Z;
                    ps_width := 30%Z; ps_height := 30%Z; ps_onGround := true;
                    ps_color := "#00ff00"; ps_name := "Bob";
                    ps_isDead := false; ps_hasWon := false; ps_deaths := 0%Z |}
                 (info_id bob))
              alice "Bob") as (Hstatus & _ & _).
  - compute_done.
  - reflexivity.
  - reflexivity.
  - discriminate Hstatus.
Qed.

(** C8 as stated fails: Bob's heartbeat is accepted at 1000, the pass
    at 3000 keeps him (2000 ms old), and at 4500, before the next pass,
    his entry is still there although his only accepted message is
    3500 ms old. *)
Lemma entry_outlives_window :
  ~ (forall (schedule : list (Env * Input (number := Z))) (now : Z)
            (peer : string),
        chronological schedule now ->
        entry_iff_recent (sample_parse bob_heartbeat) schedule alice now peer).
Proof.
  intros Hclaim.
  destruct (Hclaim [(env_at 1000, BcDelivery bob_heartbeat);
                    (env_at 3000, Fire CleanupTask)] 4500%Z (info_id bob))
    as [Hexists _].
  - simpl. repeat constructor; simpl; lia.
  - destruct (Hexists eq_refl) as (t & Hin & Hrecent).
    vm_compute in Hin. apply list_elem_of_singleton in Hin as ->. lia.
Qed.

(** The set is cut back when the 201st id arrives. *)
Example seen_set_trimmed :
  let ids := (fun n => String (Ascii.ascii_of_nat n) "x") <$> seq 0 201 in
  let deliveries :=
    (fun id => (env_at 5000,
                BcDelivery {| wire_msg := StartGame (number := Z) 0%Z (info_id bob);
                              wire_msgId := Some id |})) <$> ids in
  seenMessageIds (run (sample_parse bob_heartbeat) deliveries alice)
  = slice_last 100 ids.
Proof. vm_compute. reflexivity. Qed.

(** * Concrete instances of the further properties *)

Lemma own_echo_ignored_witness :
  let P := sample_parse (number := Z) bob_heartbeat in
  peerId alice_in_room = peerId alice
  /\ Forall (echo_ignored P (env_at 5400) alice_in_room)
       (snd (step P (env_at 5000) (Fire HeartbeatTask) alice)).
Proof.
  split; [reflexivity|].
  apply (own_echo_ignored (sample_parse (number := Z) bob_heartbeat)
           (env_at 5000) (env_at 5400) (Fire HeartbeatTask) alice alice_in_room).
  reflexivity.
Defined.

Lemma broadcast_reaches_peers_witness :
  let P := sample_parse (number := Z) bob_stamped in
  let msg := wire_msg (number := Z) bob_stamped in
  let id := message_id (env_at 5000) bob_manager in
  let record :=
    {| ev_key := Some (storage_key (env_at 5000) bob_manager);
       ev_newValue := Some "{from:bob}" |} in
  destroyed bob_manager = false
  /\ destroyed alice = false
  /\ roomId alice = roomId bob_manager
  /\ peerId bob_manager <> peerId alice
  /\ Set_has id (seenMessageIds alice) = false
  /\ Forall (delivered P (env_at 5003) alice msg id)
            (broadcast (env_at 5000) msg bob_manager)
  /\ step P (env_at 5003) (StorageDelivery record) alice
     = handleIncomingMessage 5003 msg (remembering id alice).
Proof.
  assert (H1 : peerId bob_manager <> peerId alice) by compute_done.
  pose proof (broadcast_reaches_peers (sample_parse (number := Z) bob_stamped)
                (env_at 5000) (env_at 5003) (wire_msg bob_stamped)
                bob_manager alice eq_refl eq_refl eq_refl H1 eq_refl) as Hall.
  split; [reflexivity|]. split; [reflexivity|]. split; [reflexivity|].
  split; [exact H1|]. split; [reflexivity|]. split; [exact Hall|].
  apply (Forall_inv (Forall_inv_tail Hall) "{from:bob}"); reflexivity.
Defined.

(** What the delivery of that record does on Alice's side: Bob is
    registered at the arrival time, his join is announced, and his
    message id is remembered. *)
Example broadcast_record_registers :
  let P := sample_parse (number := Z) bob_stamped in
  let record :=
    {| ev_key := Some (storage_key (env_at 5000) bob_manager);
       ev_newValue := Some "{from:bob}" |} in
  SetItem (number := Z) (storage_key (env_at 5000) bob_manager)
    {| wrapper_from := peerId bob_manager; wrapper_data := bob_stamped |}
    ∈ snd (step P (env_at 5000) (Fire HeartbeatTask) bob_manager)
  /\ step P (env_at 5003) (StorageDelivery record) alice
     = (with_seenMessageIds [message_id (env_at 5000) bob_manager]
          (with_remotePlayers
             [(info_id bob, mkInfo (info_id bob) "Bob" "#00ff00" 5003)] alice),
        [OnStatusChange (status_joined "Bob");
         OnConnectionChange 1;
         OnPlayerListChange [mkInfo (info_id bob) "Bob" "#00ff00" 5003]]).
Proof. split; [|reflexivity]. apply list_elem_of_further, list_elem_of_here. Qed.

Lemma join_announcement_discovers_witness :
  destroyed bob_manager = false
  /\ destroyed alice = false
  /\ bcChannel bob_manager = Some ChannelOpen
  /\ peerId bob_manager <> peerId alice
  /\ Set_has (message_id (env_at 5000) bob_manager) (seenMessageIds alice) = false
  /\ Map_has (peerId bob_manager) (remotePlayers alice) = false
  /\ exists data,
       PostMessage (number := Z) data ∈ announceJoin (env_at 5000) bob_manager
       /\ let r := bcChannel_onmessage 5003 data alice in
          Map_get (peerId bob_manager) (remotePlayers (fst r))
          = Some (mkInfo (peerId bob_manager) "Bob" "#00ff00" 5003)
          /\ join_notified "Bob" (fst r) (snd r)
          /\ SetTimeout AnnounceJoinTask 50 ∈ snd r.
Proof.
  assert (H1 : peerId bob_manager <> peerId alice) by compute_done.
  split; [reflexivity|]. split; [reflexivity|]. split; [reflexivity|].
  split; [exact H1|]. split; [reflexivity|]. split; [reflexivity|].
  apply (join_announcement_discovers (number := Z) (env_at 5000) 5003
           bob_manager alice eq_refl eq_refl eq_refl H1 eq_refl eq_refl).
Defined.

(** With a dash in a room id the prefix test lets a neighbour in: the
    instance of room AB takes the records of room AB-C for its own. *)
Example dashed_room_id_leaks :
  room_key (in_room "AB" alice) (storage_key (env_at 5000) (in_room "AB-C" bob_manager))
  = true.
Proof. reflexivity. Qed.

Lemma storage_rooms_isolated_witness :
  let P := sample_parse (number := Z) bob_heartbeat in
  let sender := in_room "QRSTUV" bob_manager in
  let msg := Heartbeat (number := Z) (peerId sender) "Bob" "#00ff00" in
  has_dash (roomId sender) = false
  /\ has_dash (roomId alice) = false
  /\ roomId sender <> roomId alice
  /\ Forall (record_ignored P 5003 alice) (broadcast (env_at 5000) msg sender).
Proof.
  assert (H1 : roomId (in_room "QRSTUV" bob_manager) <> roomId alice)
    by compute_done.
  split; [reflexivity|]. split; [reflexivity|]. split; [exact H1|].
  apply (storage_rooms_isolated (sample_parse (number := Z) bob_heartbeat)
           (env_at 5000) 5003
           (Heartbeat (number := Z) (peerId (in_room "QRSTUV" bob_manager))
              "Bob" "#00ff00")
           (in_room "QRSTUV" bob_manager) alice eq_refl eq_refl H1).
Defined.

Lemma player_list_excludes_self_witness :
  let P := sample_parse (number := Z) bob_heartbeat in
  let st := run P [(env_at 5000, BcDelivery bob_heartbeat)]
              (fst (construct (number := Z) "alice000" "k1" "ABCDEF" "Alice"
                      "#ff0000" true true (env_at 0))) in
  mkInfo (info_id bob) "Bob" "#00ff00" 5000 ∈ getPlayerList st
  /\ info_id (mkInfo (info_id bob) "Bob" "#00ff00" 5000) <> peerId st.
Proof.
  assert (H1 : mkInfo (info_id bob) "Bob" "#00ff00" 5000
               ∈ getPlayerList
                   (run (sample_parse (number := Z) bob_heartbeat)
                      [(env_at 5000, BcDelivery bob_heartbeat)]
                      (fst (construct (number := Z) "alice000" "k1" "ABCDEF"
                              "Alice" "#ff0000" true true (env_at 0)))))
    by apply list_elem_of_here.
  split; [exact H1|].
  apply (player_list_excludes_self (sample_parse (number := Z) bob_heartbeat)
           "alice000" "k1" "ABCDEF" "Alice" "#ff0000" true true (env_at 0)
           [(env_at 5000, BcDelivery bob_heartbeat)]
           (mkInfo (info_id bob) "Bob" "#00ff00" 5000) H1).
Defined.

Lemma other_peers_untouched_witness :
  let msg := PlayerLeft (number := Z) (info_id bob) in
  info_id carol <> msg_peerId msg
  /\ Map_get (info_id carol)
       (remotePlayers (fst (handleIncomingMessage 9000 msg alice_in_room)))
     = Map_get (info_id carol) (remotePlayers alice_in_room).
Proof.
  assert (H1 : info_id carol <> msg_peerId (PlayerLeft (number := Z) (info_id bob)))
    by compute_done.
  split; [exact H1|].
  apply (other_peers_untouched 9000 (PlayerLeft (number := Z) (info_id bob))
           alice_in_room (info_id carol) H1).
Defined.

Lemma liveness_pass_idempotent_witness :
  let st1 := fst (cleanupInterval_tick (number := Z) 6000 alice_in_room) in
  destroyed alice_in_room = false
  /\ NoDup (Map_keys (remotePlayers alice_in_room))
  /\ cleanupInterval_tick (number := Z) 6000 st1 = (st1, []).
Proof.
  assert (H2 : NoDup (Map_keys (remotePlayers alice_in_room))) by compute_done.
  split; [reflexivity|]. split; [exact H2|].
  apply (liveness_pass_idempotent (number := Z) 6000 alice_in_room eq_refl H2).
Defined.

Lemma removed_peer_rejoins_witness :
  let left := fst (handleIncomingMessage (number := Z) 6000
                     (PlayerLeft (info_id bob)) alice_in_room) in
  let evicted := fst (cleanupInterval_tick (number := Z) 6000 alice_in_room) in
  let r1 := handleIncomingMessage (number := Z) 7000
              (Heartbeat (info_id bob) "Bob" "#00ff00") left in
  let r2 := handleIncomingMessage (number := Z) 7000
              (Heartbeat (info_id bob) "Bob" "#00ff00") evicted in
  info_id bob <> peerId alice_in_room
  /\ destroyed alice_in_room = false
  /\ NoDup (Map_keys (remotePlayers alice_in_room))
  /\ Map_get (info_id bob) (remotePlayers alice_in_room) = Some bob
  /\ stale 6000 bob = true
  /\ join_notified "Bob" (fst r1) (snd r1)
  /\ join_notified "Bob" (fst r2) (snd r2).
Proof.
  assert (H1 : info_id bob <> peerId alice_in_room) by compute_done.
  assert (H2 : NoDup (Map_keys (remotePlayers alice_in_room))) by compute_done.
  split; [exact H1|]. split; [reflexivity|]. split; [exact H2|].
  split; [reflexivity|]. split; [reflexivity|].
  apply (removed_peer_rejoins (number := Z) 6000 7000 (info_id bob) bob
           "Bob" "#00ff00" alice_in_room H1 eq_refl H2 eq_refl eq_refl).
Defined.

Lemma unidentified_message_always_dispatched_witness :
  let P := sample_parse (number := Z) bob_heartbeat in
  let data := {| wire_msg := Heartbeat (number := Z) (info_id bob) "Bob" "#00ff00";
                 wire_msgId := None |} in
  let st1 := fst (step P (env_at 5000) (BcDelivery data) alice) in
  destroyed alice = false
  /\ truthy_opt (wire_msgId data) = false
  /\ carries P alice (BcDelivery data) data
  /\ step P (env_at 5000) (BcDelivery data) alice
     = handleIncomingMessage 5000 (wire_msg data) alice
  /\ seenMessageIds st1 = seenMessageIds alice
  /\ step P (env_at 5400) (BcDelivery data) st1
     = handleIncomingMessage 5400 (wire_msg data) st1.
Proof.
  split; [reflexivity|]. split; [reflexivity|]. split; [reflexivity|].
  apply (unidentified_message_always_dispatched
           (sample_parse (number := Z) bob_heartbeat) (env_at 5000) (env_at 5400)
           (BcDelivery _) (BcDelivery _)
           {| wire_msg := Heartbeat (number := Z) (info_id bob) "Bob" "#00ff00";
              wire_msgId := None |}
           alice eq_refl eq_refl eq_refl eq_refl).
Defined.

Lemma sample_draw_in_range : forall i, i < 6 -> sample_draw i < 32.
Proof. intros i _. unfold sample_draw. apply Nat.mod_upper_bound. lia. Defined.

Lemma generateRoomId_shape_witness :
  (forall i, i < 6 -> sample_draw i < 32)
  /\ String.length (generateRoomId sample_draw) = 6
  /\ alphabet_string (generateRoomId sample_draw) = true
  /\ room_id_string (generateRoomId sample_draw) = true
  /\ has_dash (generateRoomId sample_draw) = false.
Proof.
  split; [exact sample_draw_in_range|].
  apply (generateRoomId_shape sample_draw sample_draw_in_range).
Defined.

(** The six draws 3, 10, 17, 24, 31, 6 spell this id. *)
Example generateRoomId_sample : generateRoomId sample_draw = "DLT29G".
Proof. reflexivity. Qed.

Lemma getRoomIdFromURL_round_trip_witness :
  room_id_string "AB-c12" = true
  /\ truthy "AB-c12" = true
  /\ stops_capture "&lang=fr" = true
  /\ getRoomIdFromURL ("#room=" +:+ "AB-c12" +:+ "&lang=fr") = Some "AB-c12".
Proof.
  split; [reflexivity|]. split; [reflexivity|]. split; [reflexivity|].
  apply (getRoomIdFromURL_round_trip "AB-c12" "&lang=fr" eq_refl eq_refl eq_refl).
Defined.

Lemma generated_room_link_round_trip_witness :
  (forall i, i < 6 -> sample_draw i < 32)
  /\ getRoomIdFromURL ("#room=" +:+ generateRoomId sample_draw)
     = Some (generateRoomId sample_draw).
Proof.
  split; [exact sample_draw_in_range|].
  apply (generated_room_link_round_trip sample_draw sample_draw_in_range).
Defined.

Lemma getRoomIdFromURL_sound_witness :
  getRoomIdFromURL "#/lobby?room=Q7-x&v=2" = Some "Q7-x"
  /\ truthy "Q7-x" = true
  /\ room_id_string "Q7-x" = true
  /\ exists pre post,
       "#/lobby?room=Q7-x&v=2" = pre +:+ "room=" +:+ "Q7-x" +:+ post
       /\ stops_capture post = true.
Proof.
  split; [reflexivity|].
  apply (getRoomIdFromURL_sound "#/lobby?room=Q7-x&v=2" "Q7-x" eq_refl).
Defined.

(** No [room=] in the hash, or nothing usable after it: no room id. *)
Example getRoomIdFromURL_none :
  getRoomIdFromURL EmptyString = None
  /\ getRoomIdFromURL "#level=3" = None
  /\ getRoomIdFromURL "#room=" = None
  /\ getRoomIdFromURL "#room=!" = None.
Proof. repeat split. Qed.

Lemma canvas_players_registered_witness :
  let P := sample_parse (number := Z) bob_heartbeat in
  let sys := canvas_run P
               [InitLevel true;
                ManagerStep (env_at 5000) (BcDelivery (bob_update 0%Z))]
               (fst (construct (number := Z) "alice000" "k1" "ABCDEF" "Alice"
                       "#ff0000" true true (env_at 0)), None) in
  destroyed (fst sys) = false
  /\ info_id bob ∈ canvas_peers (snd sys)
  /\ info_id bob ∈ Map_keys (remotePlayers (fst sys)).
Proof.
  assert (H2 : info_id bob
               ∈ canvas_peers
                   (snd (canvas_run (sample_parse (number := Z) bob_heartbeat)
                           [InitLevel true;
                            ManagerStep (env_at 5000)
                              (BcDelivery (bob_update 0%Z))]
                           (fst (construct (number := Z) "alice000" "k1" "ABCDEF"
                                   "Alice" "#ff0000" true true (env_at 0)),
                            None))))
    by apply list_elem_of_here.
  split; [reflexivity|]. split; [exact H2|].
  apply (canvas_players_registered (sample_parse (number := Z) bob_heartbeat)
           "alice000" "k1" "ABCDEF" "Alice" "#ff0000" true true (env_at 0)
           [InitLevel true;
            ManagerStep (env_at 5000) (BcDelivery (bob_update 0%Z))]
           (info_id bob) eq_refl H2).
Defined.

Lemma lastSeen_never_ahead_witness :
  let P := sample_parse (number := Z) bob_heartbeat in
  let st := run P [(env_at 5000, BcDelivery bob_heartbeat)]
              (fst (construct (number := Z) "alice000" "k1" "ABCDEF" "Alice"
                      "#ff0000" true true (env_at 0))) in
  Forall (fun ei : Env * Input (number := Z) => (date_now (fst ei) <= 6000)%Z)
    [(env_at 5000, BcDelivery bob_heartbeat)]
  /\ mkInfo (info_id bob) "Bob" "#00ff00" 5000 ∈ getPlayerList st
  /\ (info_lastSeen (mkInfo (info_id bob) "Bob" "#00ff00" 5000) <= 6000)%Z.
Proof.
  assert (H1 : Forall (fun ei : Env * Input (number := Z) =>
                         (date_now (fst ei) <= 6000)%Z)
                 [(env_at 5000, BcDelivery bob_heartbeat)]).
  { repeat constructor. simpl. lia. }
  assert (H2 : mkInfo (info_id bob) "Bob" "#00ff00" 5000
               ∈ getPlayerList
                   (run (sample_parse (number := Z) bob_heartbeat)
                      [(env_at 5000, BcDelivery bob_heartbeat)]
                      (fst (construct (number := Z) "alice000" "k1" "ABCDEF"
                              "Alice" "#ff0000" true true (env_at 0)))))
    by apply list_elem_of_here.
  split; [exact H1|]. split; [exact H2|].
  apply (lastSeen_never_ahead (sample_parse (number := Z) bob_heartbeat)
           "alice000" "k1" "ABCDEF" "Alice" "#ff0000" true true (env_at 0)
           [(env_at 5000, BcDelivery bob_heartbeat)] 6000
           (mkInfo (info_id bob) "Bob" "#00ff00" 5000) H1 H2).
Defined.
